(** * The goproxy interception core of evilginx2: a shallow embedding

    The development follows two Go files of package [goproxy]:

    - [ctx.go]   : [ProxyCtx], [ProxyCtx.RoundTrip], [sendRequestManually],
                   [ProxyCtx.Charset];
    - [proxy.go] : [ProxyHttpServer], [copyHeaders], [filterRequest],
                   [filterResponse], [removeProxyHeaders], [ServeHTTP].

    Go pointers to requests and responses are addresses into an explicit
    store, so that in-place mutation and aliasing are visible.  Calls that
    leave the two files (the network, the websocket tunnel, the CONNECT
    handler, the fallback handler, the client-facing writer) are recorded
    in an event trace, in program order.

    Scope of the model:
    - filters are total functions over the store: they return, and do not
      call the transport themselves;
    - a request object has an allocated header map and URL and a response
      has a body, as [net/http] guarantees for what it parses; a request
      filter returns a request that is not [nil];
    - two objects do not share one header map;
    - [ctx.Logf], [ctx.Warnf] and [log.Debug] only write to a logger and
      are left out, and so is the status line they print;
    - what [http.Error] does to the headers of the client-facing writer is
      part of its event; so is all that [proxy.handleHttps] and the
      fallback handler do, which answer the client themselves: the state
      shown after their event is the state before it. *)

From Stdlib Require Import ZArith Ascii String.
From stdpp Require Import base strings gmap list option functions.

Open Scope string_scope.
Open Scope Z_scope.

(** ** Strings: the helpers of Go's [strings] package that the code calls *)

Module Strings.

(** [strings.HasPrefix] *)
Definition HasPrefix (s pre : string) : bool := String.prefix pre s.

(** [strings.Contains s sub] *)
Fixpoint Contains (s sub : string) : bool :=
  if String.prefix sub s then true
  else match s with
       | EmptyString => false
       | String _ s' => Contains s' sub
       end.

(** [s[i:]] *)
Fixpoint from (i : nat) (s : string) : string :=
  match i, s with
  | O, _ => s
  | S i', String _ s' => from i' s'
  | S _, EmptyString => EmptyString
  end.

(** [s[:i]] *)
Fixpoint upto (i : nat) (s : string) : string :=
  match i, s with
  | O, _ => EmptyString
  | S i', String a s' => String a (upto i' s')
  | S _, EmptyString => EmptyString
  end.

(** [strings.HasSuffix] *)
Definition HasSuffix (s suf : string) : bool :=
  (String.length suf <=? String.length s)%nat
  && String.eqb (from (String.length s - String.length suf) s) suf.

Fixpoint lastIndexFrom (c : ascii) (s : string) (i : nat) (acc : option nat)
  : option nat :=
  match s with
  | EmptyString => acc
  | String a s' =>
      lastIndexFrom c s' (S i) (if Ascii.eqb a c then Some i else acc)
  end.

(** [strings.LastIndexByte]; [None] stands for Go's [-1]. *)
Definition LastIndexByte (s : string) (c : ascii) : option nat :=
  lastIndexFrom c s 0%nat None.

(** The suffix of [s] that follows the leftmost occurrence of [pat]. *)
Fixpoint afterFirst (pat s : string) : option string :=
  if String.prefix pat s then Some (from (String.length pat) s)
  else match s with
       | EmptyString => None
       | String _ s' => afterFirst pat s'
       end.

(** The longest prefix of [s] whose bytes all satisfy [p]. *)
Fixpoint takeWhile (p : ascii -> bool) (s : string) : string :=
  match s with
  | EmptyString => EmptyString
  | String a s' => if p a then String a (takeWhile p s') else EmptyString
  end.

Fixpoint forallb (p : ascii -> bool) (s : string) : bool :=
  match s with
  | EmptyString => true
  | String a s' => p a && forallb p s'
  end.

End Strings.

(** ** [net/textproto]: canonical header keys *)

Definition byteIn (lo hi c : ascii) : bool :=
  (nat_of_ascii lo <=? nat_of_ascii c)%nat
  && (nat_of_ascii c <=? nat_of_ascii hi)%nat.

Definition isLower (c : ascii) : bool := byteIn "a" "z" c.
Definition isUpper (c : ascii) : bool := byteIn "A" "Z" c.
Definition isDigit (c : ascii) : bool := byteIn "0" "9" c.

(** Go's [validHeaderFieldByte]: the token characters of RFC 7230. *)
Definition validHeaderFieldByte (c : ascii) : bool :=
  isLower c || isUpper c || isDigit c
  || Strings.Contains "!#$%&'*+-.^_`|~" (String c EmptyString).

Definition toLower : nat := 32.

(** The second loop of Go's [canonicalMIMEHeaderKey]: upper case for the
    first letter and after each dash, lower case elsewhere. *)
Fixpoint canonLoop (upper : bool) (s : string) : string :=
  match s with
  | EmptyString => EmptyString
  | String c s' =>
      let c' :=
        if upper && isLower c then ascii_of_nat (nat_of_ascii c - toLower)
        else if negb upper && isUpper c
             then ascii_of_nat (nat_of_ascii c + toLower)
             else c in
      String c' (canonLoop (Ascii.eqb c' "-") s')
  end.

(** [textproto.CanonicalMIMEHeaderKey]: a key holding a byte that is not a
    token character is returned as it is. *)
Definition CanonicalMIMEHeaderKey (s : string) : string :=
  if Strings.forallb validHeaderFieldByte s then canonLoop true s else s.

(** ** [http.Header]: a map from keys to the list of their values *)

Abbreviation http_Header := (gmap string (list string)).

Definition Header_Get (h : http_Header) (key : string) : string :=
  match h !! CanonicalMIMEHeaderKey key with
  | Some (v :: _) => v
  | _ => ""
  end.

Definition Header_Set (h : http_Header) (key value : string) : http_Header :=
  <[CanonicalMIMEHeaderKey key := [value]]> h.

Definition Header_Add (h : http_Header) (key value : string) : http_Header :=
  let k := CanonicalMIMEHeaderKey key in
  <[k := (default [] (h !! k) ++ [value])%list]> h.

Definition Header_Del (h : http_Header) (key : string) : http_Header :=
  delete (CanonicalMIMEHeaderKey key) h.

(** ** [net/url] *)

(** [url.URL].  [URL_RequestURI] holds the value of [u.RequestURI()]: Go
    computes it from the path and query of the URL, which nothing in the two
    files assigns. *)
Record URL := mkURL {
  Scheme : string;
  Host : string;
  URL_RequestURI : string;
}.

Definition URL_IsAbs (u : URL) : bool := negb (String.eqb (Scheme u) "").

Definition validOptionalPort (port : string) : bool :=
  match port with
  | EmptyString => true
  | String c rest => Ascii.eqb c ":" && Strings.forallb isDigit rest
  end.

(** Go's [splitHostPort], first component. *)
Definition splitHost (hostPort : string) : string :=
  let host :=
    match Strings.LastIndexByte hostPort ":" with
    | Some colon =>
        if validOptionalPort (Strings.from colon hostPort)
        then Strings.upto colon hostPort else hostPort
    | None => hostPort
    end in
  if Strings.HasPrefix host "[" && Strings.HasSuffix host "]"
  then Strings.upto (String.length host - 2) (Strings.from 1 host)
  else host.

Definition URL_Hostname (u : URL) : string := splitHost (Host u).

(** ** [net/http]: requests and responses *)

(** A [*http.Request] is an address into the store; [*http.Response] may be
    [nil], hence [option RespPtr].  A response body ([io.ReadCloser]) is
    known by its identity only, which is what Go's [!=] on interface
    values compares. *)
Abbreviation ReqPtr := nat.
Abbreviation RespPtr := nat.
Abbreviation BodyId := nat.

Module Request.
Record t := mk {
  Method : string;
  URL : URL;
  Header : http_Header;
  RequestURI : string;
  Close : bool;
}.
Definition setHeader (h : http_Header) (r : t) : t :=
  mk (Method r) (URL r) h (RequestURI r) (Close r).
Definition setURLHost (host : string) (r : t) : t :=
  mk (Method r)
     (mkURL (Scheme (URL r)) host (URL_RequestURI (URL r)))
     (Header r) (RequestURI r) (Close r).
Definition setRequestURI (u : string) (r : t) : t :=
  mk (Method r) (URL r) (Header r) u (Close r).
Definition setClose (c : bool) (r : t) : t :=
  mk (Method r) (URL r) (Header r) (RequestURI r) c.
End Request.

Module Response.
Record t := mk {
  Status : string;
  StatusCode : Z;
  Header : http_Header;
  Body : BodyId;
}.
Definition setHeader (h : http_Header) (r : t) : t :=
  mk (Status r) (StatusCode r) h (Body r).
End Response.

(** ** [ProxyCtx] (ctx.go, lines 17-32)

    [RoundTripper] and [UserData] are interface values: [None] is [nil],
    [Some n] names an implementation.  [certStore] and [Proxy] are not
    assigned after creation; the server is passed along instead. *)
Record ProxyCtx := mkCtx {
  Req : ReqPtr;
  Resp : option RespPtr;
  RoundTripper : option nat;
  Error : option string;
  UserData : option nat;
  Session : Z;
}.

Definition setResp (resp : option RespPtr) (c : ProxyCtx) : ProxyCtx :=
  mkCtx (Req c) resp (RoundTripper c) (Error c) (UserData c) (Session c).
Definition setError (e : option string) (c : ProxyCtx) : ProxyCtx :=
  mkCtx (Req c) (Resp c) (RoundTripper c) e (UserData c) (Session c).

(** What a filter can reach through its arguments: the requests, the
    responses and the context of the request being served. *)
Record Store := mkStore {
  requests : ReqPtr -> Request.t;
  responses : RespPtr -> Response.t;
  ctx : ProxyCtx;
}.

(** The state of one [ServeHTTP] call: the store, the header map of the
    client-facing [http.ResponseWriter], and the server's [sess] counter. *)
Record World := mkWorld {
  store : Store;
  wHeader : http_Header;
  sess : Z;
}.

(** Calls that leave the two files, and calls between their functions that
    the properties speak about, in program order. *)
Inductive Event :=
| EvHandleHttps (r : ReqPtr)
| EvNonproxy (r : ReqPtr)
| EvReqHandle (i : nat) (r : ReqPtr)
| EvRespHandle (i : nat) (resp : option RespPtr)
| EvServeWebsocket (r : ReqPtr)
| EvRemoveProxyHeaders (r : ReqPtr)
| EvRoundTrip (r : ReqPtr)
| EvDial (tls : bool) (addr : string) (err : option string)
| EvConnWrite (s : string)
| EvReadResponse (res : RespPtr + string)
| EvHttpError (msg : string) (code : Z)
| EvWriteHeader (code : Z)
| EvCopy (flush : bool) (body : BodyId)
| EvBodyClose (body : BodyId).

(** ** The state-and-trace monad *)

Definition M (A : Type) : Type := World -> A * World * list Event.

#[global] Instance M_ret : MRet M := fun A a w => (a, w, []).
#[global] Instance M_bind : MBind M := fun A B f m w =>
  let '(a, w1, t1) := m w in
  let '(b, w2, t2) := f a w1 in
  (b, w2, (t1 ++ t2)%list).

Definition emit (e : Event) : M unit := fun w => (tt, w, [e]).
Definition getStore : M Store := fun w => (store w, w, []).
Definition putStore (s : Store) : M unit :=
  fun w => (tt, mkWorld s (wHeader w) (sess w), []).
Definition getReq (p : ReqPtr) : M Request.t :=
  fun w => (requests (store w) p, w, []).
Definition getResp (p : RespPtr) : M Response.t :=
  fun w => (responses (store w) p, w, []).
Definition getCtx : M ProxyCtx := fun w => (ctx (store w), w, []).

Definition storeReq (p : ReqPtr) (r : Request.t) (s : Store) : Store :=
  mkStore (<[p := r]> (requests s)) (responses s) (ctx s).
Definition storeResp (p : RespPtr) (r : Response.t) (s : Store) : Store :=
  mkStore (requests s) (<[p := r]> (responses s)) (ctx s).
Definition storeCtx (c : ProxyCtx) (s : Store) : Store :=
  mkStore (requests s) (responses s) c.

Definition mapStore (f : Store -> Store) (w : World) : World :=
  mkWorld (f (store w)) (wHeader w) (sess w).
Definition modifyStore (f : Store -> Store) : M unit :=
  fun w => (tt, mapStore f w, []).
Definition liftStore {A} (f : Store -> A * Store) : M A :=
  fun w => let '(a, s) := f (store w) in (a, mapStore (fun _ => s) w, []).
Definition getWHeader : M http_Header := fun w => (wHeader w, w, []).
Definition putWHeader (h : http_Header) : M unit :=
  fun w => (tt, mkWorld (store w) h (sess w), []).

Definition result {A} (x : A * World * list Event) : A := x.1.1.
Definition final {A} (x : A * World * list Event) : World := x.1.2.
Definition events {A} (x : A * World * list Event) : list Event := x.2.

Definition modifyReq (p : ReqPtr) (f : Request.t -> Request.t) : M unit :=
  modifyStore (fun s => storeReq p (f (requests s p)) s).
Definition modifyResp (p : RespPtr) (f : Response.t -> Response.t) : M unit :=
  modifyStore (fun s => storeResp p (f (responses s p)) s).
Definition modifyCtx (f : ProxyCtx -> ProxyCtx) : M unit :=
  modifyStore (fun s => storeCtx (f (ctx s)) s).

(** A Go call either returns or panics. *)
Inductive outcome (A : Type) :=
| Returns (a : A)
| Panics (msg : string).
Arguments Returns {A} a.
Arguments Panics {A} msg.

(** ** The environment of the two files

    - [rangeHeader]: the order in which a [range] over a header map yields
      its entries; Go leaves it unspecified;
    - [Dial], [ReadResponse]: what [tls.Dial]/[net.Dial] and
      [http.ReadResponse] answer, given the address and what was written;
      a parsed response comes with the address it is allocated at;
    - [isWebSocketRequest], [serveWebsocket]: functions of package goproxy
      declared in a file other than the two above;
    - [roundTrippers]: the implementation that a [RoundTripper] interface
      value names. *)
Record Env := mkEnv {
  rangeHeader : http_Header -> list (string * list string);
  Dial : bool -> string -> option string;
  ReadResponse : string -> list string -> (RespPtr * Response.t) + string;
  isWebSocketRequest : Request.t -> bool;
  serveWebsocket : ReqPtr -> Store -> Store;
  roundTrippers :
    nat -> ReqPtr -> Store -> (option RespPtr * option string) * Store;
}.

(** A [range] yields every entry of the map once. *)
Definition rangeOk (E : Env) : Prop :=
  forall h : http_Header, rangeHeader E h ≡ₚ map_to_list h.

(** [ReqHandler.Handle] and [RespHandler.Handle]: arbitrary code over what
    its arguments reach. *)
Definition ReqHandler : Type :=
  ReqPtr -> Store -> (ReqPtr * option RespPtr) * Store.
Definition RespHandler : Type :=
  option RespPtr -> Store -> option RespPtr * Store.

(** [ProxyHttpServer] (proxy.go, lines 15-34); [sess] lives in [World]. *)
Record ProxyHttpServer := mkProxy {
  KeepDestinationHeaders : bool;
  Verbose : bool;
  reqHandlers : list ReqHandler;
  respHandlers : list RespHandler;
  KeepHeader : bool;
}.

Definition CRLF : string := String "013" (String "010" EmptyString).

(** ** ctx.go *)

(** [charsetFinder.FindStringSubmatch] (line 155).  The pattern is the
    literal [charset=] followed by a group: any number of characters other
    than a space and a semicolon.  The match is the leftmost occurrence of
    the literal with the longest such run after it; the result holds the
    whole match and the group, or is [nil]. *)
Definition notSpaceSemi (c : ascii) : bool :=
  negb (Ascii.eqb c " ") && negb (Ascii.eqb c ";").

Definition charsetFinder_FindStringSubmatch (s : string)
  : option (list string) :=
  match Strings.afterFirst "charset=" s with
  | None => None
  | Some rest =>
      let g := Strings.takeWhile notSpaceSemi rest in
      Some ["charset=" +:+ g; g]
  end.

(** [ProxyCtx.Charset] (lines 160-166): [ctx.Resp] is dereferenced without
    a test. *)
Definition Charset (s : Store) : outcome string :=
  match Resp (ctx s) with
  | None => Panics "invalid memory address or nil pointer dereference"
  | Some p =>
      let charsets :=
        charsetFinder_FindStringSubmatch
          (Header_Get (Response.Header (responses s p)) "Content-Type") in
      match charsets with
      | None => Returns ""
      | Some l =>
          match l !! 1%nat with
          | Some c => Returns c
          | None => Panics "index out of range"
          end
      end
  end.

(** What [sendRequestManually] writes (lines 91-97), one element per
    [Fprintf]/[Fprint] call, for the entries in the order [hs]. *)
Definition headerLines (hs : list (string * list string)) : list string :=
  hs ≫= (fun '(name, values) =>
           (fun value => name +:+ ": " +:+ value +:+ CRLF) <$> values).

Definition requestWrites (hs : list (string * list string))
    (req : Request.t) : list string :=
  ([Request.Method req +:+ " " +:+ URL_RequestURI (Request.URL req)
      +:+ " HTTP/1.1" +:+ CRLF]
   ++ headerLines hs ++ [CRLF])%list.

(** The assignments of lines 61-69. *)
Definition setHostAndPort (q : Request.t) : Request.t :=
  let q1 :=
    Request.setHeader
      (Header_Set (Request.Header q) "Host" (URL_Hostname (Request.URL q)))
      q in
  if negb (Strings.Contains (Host (Request.URL q1)) ":") then
    if String.eqb (Scheme (Request.URL q1)) "https"
    then Request.setURLHost (Host (Request.URL q1) +:+ ":443") q1
    else Request.setURLHost (Host (Request.URL q1) +:+ ":80") q1
  else q1.

Section Program.
Variable E : Env.
Variable proxy : ProxyHttpServer.

(** [sendRequestManually] (lines 58-109). *)
Definition sendRequestManually (req : ReqPtr)
  : M (option RespPtr * option string) :=
  modifyReq req setHostAndPort;;
  q ← getReq req;
  let tls := String.eqb (Scheme (Request.URL q)) "https" in
  let addr := Host (Request.URL q) in
  let err := Dial E tls addr in
  emit (EvDial tls addr err);;
  match err with
  | Some e => mret (None, Some e)
  | None =>
      let ws := requestWrites (rangeHeader E (Request.Header q)) q in
      mapM (fun s => emit (EvConnWrite s)) ws;;
      match ReadResponse E addr ws with
      | inr e => emit (EvReadResponse (inr e));; mret (None, Some e)
      | inl (p, resp) =>
          emit (EvReadResponse (inl p));;
          modifyStore (storeResp p resp);;
          mret (Some p, None)
      end
  end.

(** [ProxyCtx.RoundTrip] (lines 48-55): the test of [ctx.RoundTripper] is
    commented out in the source. *)
Definition RoundTrip (req : ReqPtr) : M (option RespPtr * option string) :=
  emit (EvRoundTrip req);;
  sendRequestManually req.

(** The override as the specification words it: the capability of the
    context when it is set, the built-in sender otherwise. *)
Definition RoundTrip_spec (req : ReqPtr)
  : M (option RespPtr * option string) :=
  emit (EvRoundTrip req);;
  c ← getCtx;
  match RoundTripper c with
  | Some rt => liftStore (roundTrippers E rt req)
  | None => sendRequestManually req
  end.

(** ** proxy.go *)

(** [copyHeaders] (lines 38-49). *)
Definition copyHeaders (dst src : http_Header) (keepDestHeaders : bool)
  : http_Header :=
  let dst1 :=
    if negb keepDestHeaders
    then foldl (fun d k => Header_Del d k) dst (fst <$> rangeHeader E dst)
    else dst in
  foldl (fun d '(k, vs) => foldl (fun d' v => Header_Add d' k v) d vs)
        dst1 (rangeHeader E src).

(** [filterRequest] (lines 59-70): the loop over [proxy.reqHandlers] from
    index [i] on.  [r] is the parameter of the function, [req] and [resp]
    its named results; every handler is called on [r]. *)
Fixpoint filterRequest_loop (hs : list ReqHandler) (i : nat) (r : ReqPtr)
    (req : ReqPtr) (resp : option RespPtr) : M (ReqPtr * option RespPtr) :=
  match hs with
  | [] => mret (req, resp)
  | h :: hs' =>
      emit (EvReqHandle i r);;
      '(req', resp') ← liftStore (h r);
      match resp' with
      | Some _ => mret (req', resp')
      | None => filterRequest_loop hs' (S i) r req' resp'
      end
  end.

Definition filterRequest (r : ReqPtr) : M (ReqPtr * option RespPtr) :=
  filterRequest_loop (reqHandlers proxy) 0%nat r r None.

(** [filterResponse] (lines 71-78). *)
Fixpoint filterResponse_loop (hs : list RespHandler) (i : nat)
    (resp : option RespPtr) : M (option RespPtr) :=
  match hs with
  | [] => mret resp
  | h :: hs' =>
      modifyCtx (setResp resp);;
      emit (EvRespHandle i resp);;
      resp' ← liftStore (h resp);
      filterResponse_loop hs' (S i) resp'
  end.

Definition filterResponse (respOrig : option RespPtr) : M (option RespPtr) :=
  filterResponse_loop (respHandlers proxy) 0%nat respOrig.

Definition delHeader (key : string) (q : Request.t) : Request.t :=
  Request.setHeader (Header_Del (Request.Header q) key) q.

(** [removeProxyHeaders] (lines 80-108); the deletion of [Connection] is
    commented out in the source. *)
Definition removeProxyHeaders (r : ReqPtr) : M unit :=
  emit (EvRemoveProxyHeaders r);;
  modifyReq r (Request.setRequestURI "");;
  modifyReq r (delHeader "Accept-Encoding");;
  modifyReq r (delHeader "Proxy-Connection");;
  modifyReq r (delHeader "Proxy-Authenticate");;
  modifyReq r (delHeader "Proxy-Authorization");;
  q ← getReq r;
  if String.eqb (Header_Get (Request.Header q) "Connection") "close"
  then modifyReq r (Request.setClose false)
  else mret tt.

(** Two's complement wrap-around of [int64]. *)
Definition wrap64 (z : Z) : Z := (z + 2 ^ 63) mod 2 ^ 64 - 2 ^ 63.

(** [atomic.AddInt64(&proxy.sess, 1)] *)
Definition AddInt64_sess (delta : Z) : M Z :=
  fun w => let n := wrap64 (sess w + delta) in
           (n, mkWorld (store w) (wHeader w) n, []).

(** [origBody.Close()], deferred at line 164 when a response exists. *)
Definition closeOrig (origBody : option BodyId) : M unit :=
  match origBody with
  | Some b => emit (EvBodyClose b)
  | None => mret tt
  end.

(** [ServeHTTP], lines 141-157: the body of the first [if resp == nil]. *)
Definition ServeHTTP_send (r : ReqPtr) : M (option RespPtr) :=
  q ← getReq r;
  (if isWebSocketRequest E q
   then emit (EvServeWebsocket r);; modifyStore (serveWebsocket E r)
   else mret tt);;
  (if negb (KeepHeader proxy) then removeProxyHeaders r else mret tt);;
  '(resp, err) ← RoundTrip r;
  match err with
  | Some e => modifyCtx (setError (Some e));; filterResponse None
  | None => mret resp
  end.

(** [ServeHTTP], lines 160-205. *)
Definition ServeHTTP_reply (r : ReqPtr) (resp : option RespPtr) : M unit :=
  s ← getStore;
  let origBody := (fun p => Response.Body (responses s p)) <$> resp in
  resp ← filterResponse resp;
  match resp with
  | None =>
      c ← getCtx;
      q ← getReq r;
      match Error c with
      | Some e => emit (EvHttpError e 500)
      | None =>
          emit (EvHttpError
                  ("error read response " +:+ Host (Request.URL q)) 500)
      end;;
      closeOrig origBody
  | Some p =>
      rs ← getResp p;
      (if decide (origBody = Some (Response.Body rs)) then mret tt
       else modifyResp p (fun x =>
              Response.setHeader
                (Header_Del (Response.Header x) "Content-Length") x));;
      rs ← getResp p;
      wh ← getWHeader;
      putWHeader
        (copyHeaders wh (Response.Header rs) (KeepDestinationHeaders proxy));;
      emit (EvWriteHeader (Response.StatusCode rs));;
      wh ← getWHeader;
      emit (EvCopy
              (String.eqb (Header_Get wh "content-type") "text/event-stream")
              (Response.Body rs));;
      emit (EvBodyClose (Response.Body rs));;
      closeOrig origBody
  end.

(** [ServeHTTP], line 130: the context of the request. *)
Definition newCtx (r : ReqPtr) : M unit :=
  n ← AddInt64_sess 1;
  modifyStore (storeCtx (mkCtx r None None None None n)).

(** [ServeHTTP], lines 138-205: a request with an absolute URL. *)
Definition ServeHTTP_proxied (r : ReqPtr) : M unit :=
  '(r, resp) ← filterRequest r;
  resp ← match resp with
         | None => ServeHTTP_send r
         | Some _ => mret resp
         end;
  ServeHTTP_reply r resp.

(** [ServeHTTP] (lines 125-206). *)
Definition ServeHTTP (r : ReqPtr) : M unit :=
  q ← getReq r;
  if String.eqb (Request.Method q) "CONNECT" then emit (EvHandleHttps r)
  else
    newCtx r;;
    if negb (URL_IsAbs (Request.URL q)) then emit (EvNonproxy r)
    else ServeHTTP_proxied r.

End Program.

(** ** Reading a trace *)

(** The handlers of the response chain that ran, by index, in order. *)
Definition respIdx (tr : list Event) : list nat :=
  omap (fun e => match e with EvRespHandle i _ => Some i | _ => None end) tr.

(** The inputs the response handlers were called on, in order. *)
Definition respInputs (tr : list Event) : list (option RespPtr) :=
  omap (fun e => match e with EvRespHandle _ a => Some a | _ => None end) tr.

(** The handlers of the request chain that ran, by index, in order. *)
Definition reqIdx (tr : list Event) : list nat :=
  omap (fun e => match e with EvReqHandle i _ => Some i | _ => None end) tr.

(** The requests the request handlers were called on, in order. *)
Definition reqInputs (tr : list Event) : list ReqPtr :=
  omap (fun e => match e with EvReqHandle _ r => Some r | _ => None end) tr.

(** What was written on the connection to the origin, in order. *)
Definition connWrites (tr : list Event) : list string :=
  omap (fun e => match e with EvConnWrite s => Some s | _ => None end) tr.

(** Events of the transport sender. *)
Definition isTransport (e : Event) : bool :=
  match e with
  | EvRoundTrip _ | EvDial _ _ _ | EvConnWrite _ | EvReadResponse _ => true
  | _ => false
  end.

(** A dial or a parse that returned an error. *)
Definition isTransportError (e : Event) : bool :=
  match e with
  | EvDial _ _ (Some _) | EvReadResponse (inr _) => true
  | _ => false
  end.

Definition transportFailed (tr : list Event) : bool :=
  existsb isTransportError tr.

Definition isReqHandle (e : Event) : bool :=
  match e with EvReqHandle _ _ => true | _ => false end.

Definition isRespHandle (e : Event) : bool :=
  match e with EvRespHandle _ _ => true | _ => false end.

Definition isWebsocket (e : Event) : bool :=
  match e with EvServeWebsocket _ => true | _ => false end.

(** Events of the last part of [ServeHTTP]: what goes to the client. *)
Definition isReply (e : Event) : bool :=
  match e with
  | EvHttpError _ _ | EvWriteHeader _ | EvCopy _ _ | EvBodyClose _ => true
  | _ => false
  end.

Definition isSanitizer (e : Event) : bool :=
  match e with EvRemoveProxyHeaders _ => true | _ => false end.

(** ** [sendRequestManually] in closed form

    The result, the effect on the store and the events of a call whose
    request, after lines 61-69, is [q]. *)
Definition sendOutcome (E : Env) (q : Request.t)
  : (option RespPtr * option string) * (Store -> Store) * list Event :=
  let tls := String.eqb (Scheme (Request.URL q)) "https" in
  let addr := Host (Request.URL q) in
  match Dial E tls addr with
  | Some e => ((None, Some e), id, [EvDial tls addr (Some e)])
  | None =>
      let ws := requestWrites (rangeHeader E (Request.Header q)) q in
      match ReadResponse E addr ws with
      | inr e =>
          ((None, Some e), id,
           (EvDial tls addr None :: (EvConnWrite <$> ws)
              ++ [EvReadResponse (inr e)])%list)
      | inl (p, resp) =>
          ((Some p, None), storeResp p resp,
           (EvDial tls addr None :: (EvConnWrite <$> ws)
              ++ [EvReadResponse (inl p)])%list)
      end
  end.

(** ** [removeProxyHeaders] in closed form: its effect on the request *)
Definition sanitizedHeaders (q : Request.t) : Request.t :=
  delHeader "Proxy-Authorization"
    (delHeader "Proxy-Authenticate"
       (delHeader "Proxy-Connection"
          (delHeader "Accept-Encoding" (Request.setRequestURI "" q)))).

Definition sanitized (q : Request.t) : Request.t :=
  let q1 := sanitizedHeaders q in
  if String.eqb (Header_Get (Request.Header q1) "Connection") "close"
  then Request.setClose false q1 else q1.

Definition setRoundTripper (rt : option nat) (c : ProxyCtx) : ProxyCtx :=
  mkCtx (Req c) (Resp c) rt (Error c) (UserData c) (Session c).

(** ** Example inputs *)

Definition exampleHeaders : list (string * list string) :=
  [("User-Agent", ["curl/8.0"]); ("Connection", ["close"]);
   ("Accept", ["text/html"; "*/*"])].

(** [GET http://example.test/] with [Connection: close]. *)
Definition exampleRequest : Request.t :=
  Request.mk "GET" (mkURL "http" "example.test" "/")
    (list_to_map exampleHeaders) "http://example.test/" true.

Definition upgradeRequest : Request.t :=
  Request.mk "GET" (mkURL "http" "example.test" "/chat")
    (list_to_map [("Connection", ["Upgrade"]); ("Upgrade", ["websocket"])])
    "http://example.test/chat" false.

Definition exampleResponse : Response.t :=
  Response.mk "200 OK" 200
    (list_to_map [("Content-Type", ["text/html; charset=ISO-8859-1"]);
                  ("Content-Length", ["5"])])
    1%nat.

Definition cannedResponse : Response.t :=
  Response.mk "403 Forbidden" 403
    (list_to_map [("Content-Length", ["9"])]) 2%nat.

(** Request 0 is the inbound request, request 1 the upgrade request;
    response 2 is a canned response. *)
Definition exampleStore : Store :=
  mkStore (<[1%nat := upgradeRequest]> (fun _ => exampleRequest))
          (<[2%nat := cannedResponse]> (fun _ => exampleResponse))
          (mkCtx 0%nat None None None None 0).

Definition exampleWorld : World := mkWorld exampleStore ∅ 0.

(** The origin refuses the connection. *)
Definition envDown : Env :=
  mkEnv map_to_list
        (fun _ _ => Some "connection refused")
        (fun _ _ => inr "EOF")
        (fun q => String.eqb (Header_Get (Request.Header q) "Upgrade")
                             "websocket")
        (fun _ s => s)
        (fun _ _ s => ((Some 2%nat, None), s)).

(** The origin answers [exampleResponse], allocated at address 1. *)
Definition envUp : Env :=
  mkEnv map_to_list
        (fun _ _ => None)
        (fun _ _ => inl (1%nat, exampleResponse))
        (isWebSocketRequest envDown)
        (serveWebsocket envDown)
        (roundTrippers envDown).

(** As [envUp], with the header map ranged over in the opposite order. *)
Definition envUpRev : Env :=
  mkEnv (fun h => reverse (map_to_list h))
        (Dial envUp) (ReadResponse envUp)
        (isWebSocketRequest envUp) (serveWebsocket envUp)
        (roundTrippers envUp).

Definition passRequest : ReqHandler := fun r s => ((r, None), s).
Definition passResponse : RespHandler := fun resp s => (resp, s).

(** A request handler that answers with the canned response 2. *)
Definition blockRequest : ReqHandler := fun r s => ((r, Some 2%nat), s).

(** A request handler that returns a copy of its request, with one more
    header, at address 5. *)
Definition tagRequest : ReqHandler := fun r s =>
  let q := requests s r in
  ((5%nat, None),
   storeReq 5%nat
     (Request.setHeader (Header_Set (Request.Header q) "X-Tag" "1") q) s).

(** A response handler that gives the response a new body, 9. *)
Definition replaceBody : RespHandler := fun resp s =>
  match resp with
  | Some p =>
      let rs := responses s p in
      (resp,
       storeResp p
         (Response.mk (Response.Status rs) (Response.StatusCode rs)
                      (Response.Header rs) 9%nat) s)
  | None => (None, s)
  end.

Definition proxyPlain : ProxyHttpServer := mkProxy false false [] [] false.
Definition proxyKeeping : ProxyHttpServer := mkProxy false false [] [] true.
Definition proxyOneResp : ProxyHttpServer :=
  mkProxy false false [] [passResponse] false.
Definition proxyTagging : ProxyHttpServer :=
  mkProxy false false [tagRequest; passRequest] [] false.
Definition proxyBlocking : ProxyHttpServer :=
  mkProxy false false [passRequest; blockRequest; tagRequest]
          [passResponse] false.
Definition proxyReplacing : ProxyHttpServer :=
  mkProxy false false [] [replaceBody] false.

(** A response handler that, called on the absent response, answers with
    the response 2, and passes any other response on. *)
Definition synthResponse : RespHandler := fun resp s =>
  match resp with
  | None => (Some 2%nat, s)
  | Some _ => (resp, s)
  end.

Definition proxySynth : ProxyHttpServer :=
  mkProxy false false [] [synthResponse] false.
Definition proxySynthPass : ProxyHttpServer :=
  mkProxy false false [] [synthResponse; passResponse] false.

(** ** Further functions of the two files *)

Definition LF : string := String "010" EmptyString.

(** [hasPort] (proxy.go, line 36) with [MatchString].  The pattern is a
    colon, one or more decimal digits, and the end of the text: somewhere
    in [s] a colon is followed by digits, at least one, that run to the
    end. *)
Fixpoint hasPort_MatchString (s : string) : bool :=
  match s with
  | EmptyString => false
  | String c s' =>
      (Ascii.eqb c ":" && negb (String.eqb s' "")
       && Strings.forallb isDigit s')
      || hasPort_MatchString s'
  end.

(** [headersToString] (ctx.go, lines 112-120): what is written to the
    [strings.Builder], one element per [WriteString], and the string
    built. *)
Definition headerLogLines (hs : list (string * list string)) : list string :=
  hs ≫= (fun '(name, values) =>
           (fun value => name +:+ ": " +:+ value +:+ LF) <$> values).

Definition headersToString (E : Env) (headers : http_Header) : string :=
  foldr String.append "" (headerLogLines (rangeHeader E headers)).

(** An argument of a [Printf] call: the integer tag, or a value the
    caller passed on. *)
Inductive LogArg :=
| ArgInt (z : Z)
| ArgValue (v : string).

(** [ProxyCtx.printf] (ctx.go, lines 122-124): the calls of
    [ctx.Proxy.Logger.Printf], each with its format and its arguments. *)
Definition printf (c : ProxyCtx) (msg : string) (argv : list LogArg)
  : list (string * list LogArg) :=
  [("[%03d] " +:+ msg +:+ LF, ArgInt (Z.land (Session c) 255) :: argv)].

(** [ProxyCtx.Logf] (lines 134-138) and [ProxyCtx.Warnf] (lines 151-153). *)
Definition Logf (proxy : ProxyHttpServer) (c : ProxyCtx) (msg : string)
    (argv : list LogArg) : list (string * list LogArg) :=
  if Verbose proxy then printf c ("INFO: " +:+ msg) argv else [].

Definition Warnf (c : ProxyCtx) (msg : string) (argv : list LogArg)
  : list (string * list LogArg) :=
  printf c ("WARN: " +:+ msg) argv.

(** [NewProxyHttpServer] (proxy.go, lines 209-224): no filters, and the
    zero value [false] for the three flags. *)
Definition NewProxyHttpServer : ProxyHttpServer :=
  mkProxy false false [] [] false.

(** The two ways [ServeHTTP] answers the client itself: [http.Error] and
    [w.WriteHeader]. *)
Definition isAnswer (e : Event) : bool :=
  match e with
  | EvHttpError _ _ | EvWriteHeader _ => true
  | _ => false
  end.

(** The four headers that [removeProxyHeaders] deletes. *)
Definition isProxyHeader (k : string) : bool :=
  String.eqb k "Accept-Encoding" || String.eqb k "Proxy-Connection"
  || String.eqb k "Proxy-Authenticate" || String.eqb k "Proxy-Authorization".

(** The copy of the body to the client, [io.Copy]. *)
Definition isCopy (e : Event) : bool :=
  match e with EvCopy _ _ => true | _ => false end.

(** A response handler that behaves as [h] where the context holds the
    response it is called on, and as [other] elsewhere. *)
Definition guardResp (other h : RespHandler) : RespHandler :=
  fun resp s => if decide (Resp (ctx s) = resp) then h resp s else other resp s.

(** Every key of the map is in canonical form, as the keys that
    [Header.Set] and [Header.Add] write are. *)
Definition canonicalKeys (h : http_Header) : Prop :=
  forall k vs, h !! k = Some vs -> CanonicalMIMEHeaderKey k = k.

(** * Properties *)

(** ** Running the monad *)

Lemma run_bind {A B} (m : M A) (f : A -> M B) (w : World) :
  (m ≫= f) w =
  let '(a, w1, t1) := m w in
  let '(b, w2, t2) := f a w1 in (b, w2, (t1 ++ t2)%list).
Proof. reflexivity. Qed.

Lemma run_ret {A} (a : A) (w : World) : (mret a : M A) w = (a, w, []).
Proof. reflexivity. Qed.

Lemma run_emits (f : string -> Event) (l : list string) (w : World) :
  exists us, mapM (fun s => emit (f s)) l w = (us, w, f <$> l).
Proof.
  induction l as [|x l [us IH]]; [by exists []|].
  exists (tt :: us).
  change (mapM (fun s => emit (f s)) (x :: l))
    with (emit (f x) ≫= fun y =>
          mapM (fun s => emit (f s)) l ≫= fun k => mret (y :: k) : M _).
  rewrite run_bind. cbn [emit]. rewrite run_bind, IH, run_ret.
  cbn. by rewrite app_nil_r.
Qed.

(** ** The transport sender *)

Lemma sendRequestManually_run E req w :
  let q := setHostAndPort (requests (store w) req) in
  let o := sendOutcome E q in
  sendRequestManually E req w =
  (o.1.1, mapStore (o.1.2 ∘ storeReq req q) w, o.2).
Proof.
  intros q o. unfold sendRequestManually.
  rewrite run_bind. cbn [modifyReq modifyStore].
  rewrite run_bind. cbn [getReq mapStore store requests storeReq].
  rewrite fn_lookup_insert. fold q.
  rewrite run_bind. cbn [emit].
  subst o. unfold sendOutcome.
  destruct (Dial E _ _) as [e|]; [done|].
  rewrite run_bind.
  match goal with
  | |- context [mapM _ ?l ?w'] =>
      destruct (run_emits EvConnWrite l w') as [us ->]
  end.
  destruct (ReadResponse E _ _) as [[p resp]|e]; cbn; rewrite ?app_nil_r; done.
Qed.

Lemma sendOutcome_requests E q s p :
  requests ((sendOutcome E q).1.2 s) p = requests s p.
Proof.
  unfold sendOutcome.
  destruct (Dial E _ _); [done|].
  by destruct (ReadResponse E _ _) as [[? ?]|?].
Qed.

Lemma sendOutcome_events E q :
  exists err rest,
    (sendOutcome E q).2
    = EvDial (String.eqb (Scheme (Request.URL q)) "https")
             (Host (Request.URL q)) err :: rest.
Proof.
  unfold sendOutcome.
  destruct (Dial E _ _); [by eexists _, _|].
  destruct (ReadResponse E _ _) as [[? ?]|?]; by eexists _, _.
Qed.

Lemma canonical_Host : CanonicalMIMEHeaderKey "Host" = "Host".
Proof. reflexivity. Qed.

(** C10.  Whatever the network answers, and so also when the call returns
    an error, [sendRequestManually] leaves the request object changed: its
    [Host] header holds the host name of the URL, and the host of the URL
    has got [:443] (scheme [https]) or [:80] (any other scheme) appended
    when it held no colon.  The first network operation, the dial, already
    uses the new host. *)
Theorem sendRequestManually_mutates_request :
  forall (E : Env) (req : ReqPtr) (w : World),
    let q := requests (store w) req in
    let out := sendRequestManually E req w in
    let q' := requests (store (final out)) req in
    Request.Header q'
      = <["Host" := [URL_Hostname (Request.URL q)]]> (Request.Header q)
    /\ Host (Request.URL q')
       = (if Strings.Contains (Host (Request.URL q)) ":"
          then Host (Request.URL q)
          else Host (Request.URL q)
               +:+ (if String.eqb (Scheme (Request.URL q)) "https"
                    then ":443" else ":80"))
    /\ (exists tls err rest,
          events out = EvDial tls (Host (Request.URL q')) err :: rest).
Proof.
  intros E req w q out q'.
  assert (Hq' : q' = setHostAndPort q).
  { subst q' out. rewrite sendRequestManually_run.
    cbn [final fst snd mapStore store]. unfold compose.
    rewrite sendOutcome_requests. cbn [storeReq requests].
    by rewrite fn_lookup_insert. }
  split; [|split].
  - rewrite Hq'. unfold setHostAndPort. cbn.
    destruct (Strings.Contains _ _); cbn;
      [|destruct (String.eqb _ _)]; done.
  - rewrite Hq'. unfold setHostAndPort. cbn.
    destruct (Strings.Contains _ _); cbn;
      [|destruct (String.eqb _ _)]; done.
  - subst out. rewrite sendRequestManually_run. cbn [events snd].
    rewrite Hq'. fold q.
    destruct (sendOutcome_events E (setHostAndPort q)) as (err & rest & ->).
    by eexists _, _, _.
Qed.

(** ** The transport capability of the context *)

Lemma RoundTrip_run E req w :
  RoundTrip E req w =
  let o := sendRequestManually E req w in
  (result o, final o, EvRoundTrip req :: events o).
Proof.
  unfold RoundTrip. rewrite run_bind. cbn [emit].
  by destruct (sendRequestManually E req w) as [[a w'] t].
Qed.

(** C5 as the specification has it fails: with a [RoundTripper] set on the
    context and an origin that refuses the connection, [RoundTrip] returns
    the dial error of the built-in sender, where the override would have
    returned the response of the capability. *)
Lemma RoundTrip_override_not_invoked :
  let w := mapStore (fun s => storeCtx (setRoundTripper (Some 0%nat) (ctx s)) s)
                    exampleWorld in
  RoundTripper (ctx (store w)) = Some 0%nat
  /\ result (RoundTrip_spec envDown 0%nat w) = (Some 2%nat, None)
  /\ result (RoundTrip envDown 0%nat w) = (None, Some "connection refused")
  /\ RoundTrip envDown 0%nat w <> RoundTrip_spec envDown 0%nat w.
Proof.
  cbn zeta. repeat split; try reflexivity.
  intros H. apply (f_equal result) in H. vm_compute in H. discriminate.
Qed.

(** C5, amended.  [RoundTrip] always sends with the built-in manual sender:
    whatever the [RoundTripper] field of the context holds, the result and
    the events are the same, the events are those of the manual sender
    (they start with its dial), and the field is left as it was. *)
Theorem RoundTrip_always_manual :
  forall (E : Env) (req : ReqPtr) (w : World) (rt : option nat),
    let w' := mapStore (fun s => storeCtx (setRoundTripper rt (ctx s)) s) w in
    result (RoundTrip E req w') = result (sendRequestManually E req w)
    /\ events (RoundTrip E req w')
       = EvRoundTrip req :: events (sendRequestManually E req w)
    /\ (exists tls addr err rest,
          events (RoundTrip E req w')
          = EvRoundTrip req :: EvDial tls addr err :: rest)
    /\ RoundTripper (ctx (store (final (RoundTrip E req w')))) = rt.
Proof.
  intros E req w rt w'.
  rewrite RoundTrip_run. cbn [result final events fst snd].
  rewrite !sendRequestManually_run. cbn [fst snd]. subst w'.
  cbn [mapStore store storeCtx requests].
  repeat split.
  - destruct (sendOutcome_events E
                (setHostAndPort (requests (store w) req)))
      as (err & rest & ->).
    by eexists _, _, _, _.
  - unfold compose, sendOutcome.
    destruct (Dial E _ _); [done|].
    by destruct (ReadResponse E _ _) as [[? ?]|?].
Qed.

(** ** Charset detection *)

(** C3 at a context without a response, as [ServeHTTP] creates it: the call
    does not return the empty string, it panics on the nil pointer. *)
Theorem Charset_without_response_panics :
  Resp (ctx exampleStore) = None
  /\ Charset exampleStore
     = Panics "invalid memory address or nil pointer dereference".
Proof. split; reflexivity. Qed.

Lemma Charset_nil_never_returns (s : Store) :
  Resp (ctx s) = None -> forall c, Charset s <> Returns c.
Proof. intros H c. unfold Charset. by rewrite H. Qed.

Lemma Charset_scenario :
  Charset (storeCtx (setResp (Some 1%nat) (ctx exampleStore)) exampleStore)
  = Returns "ISO-8859-1".
Proof. reflexivity. Qed.

Lemma Charset_no_header (s : Store) (p : RespPtr) :
  Resp (ctx s) = Some p ->
  Response.Header (responses s p) !! "Content-Type" = None ->
  Charset s = Returns "".
Proof.
  intros Hp Hh. unfold Charset, Header_Get. rewrite Hp.
  change (CanonicalMIMEHeaderKey "Content-Type") with "Content-Type".
  by rewrite Hh.
Qed.

Lemma Charset_no_match (s : Store) (p : RespPtr) :
  Resp (ctx s) = Some p ->
  Strings.afterFirst "charset="
    (Header_Get (Response.Header (responses s p)) "Content-Type") = None ->
  Charset s = Returns "".
Proof.
  intros Hp Hm. unfold Charset, charsetFinder_FindStringSubmatch.
  by rewrite Hp, Hm.
Qed.

Lemma takeWhile_app (p : ascii -> bool) (cs rest : string) :
  Strings.forallb p cs = true ->
  match rest with
  | EmptyString => True
  | String c _ => p c = false
  end ->
  Strings.takeWhile p (cs +:+ rest) = cs.
Proof.
  intros Hcs Hrest. induction cs as [|a cs IH]; simpl.
  - destruct rest as [|c rest]; [done|]. simpl. by rewrite Hrest.
  - simpl in Hcs. apply andb_true_iff in Hcs as [Ha Hcs].
    rewrite Ha. f_equal. by apply IH.
Qed.

(** When the text after the leftmost [charset=] of the [Content-Type]
    value is [cs] followed by [rest], where [cs] holds no space and no
    semicolon and [rest] is empty or starts with one, the result is [cs]. *)
Lemma Charset_present (s : Store) (p : RespPtr) (cs rest : string) :
  Resp (ctx s) = Some p ->
  Strings.afterFirst "charset="
    (Header_Get (Response.Header (responses s p)) "Content-Type")
  = Some (cs +:+ rest) ->
  Strings.forallb notSpaceSemi cs = true ->
  match rest with
  | EmptyString => True
  | String c _ => notSpaceSemi c = false
  end ->
  Charset s = Returns cs.
Proof.
  intros Hp Hm Hcs Hrest. unfold Charset, charsetFinder_FindStringSubmatch.
  rewrite Hp, Hm. cbn. by rewrite takeWhile_app.
Qed.

(** ** What the transport sender writes *)

Lemma connWrites_app (t1 t2 : list Event) :
  connWrites (t1 ++ t2) = (connWrites t1 ++ connWrites t2)%list.
Proof. apply omap_app. Qed.

Lemma connWrites_writes (ws : list string) :
  connWrites (EvConnWrite <$> ws) = ws.
Proof. induction ws as [|x ws IH]; [done|]. cbn. by f_equal. Qed.

Lemma sendOutcome_writes E q :
  Dial E (String.eqb (Scheme (Request.URL q)) "https")
         (Host (Request.URL q)) = None ->
  connWrites (sendOutcome E q).2
  = requestWrites (rangeHeader E (Request.Header q)) q.
Proof.
  intros Hd. unfold sendOutcome. rewrite Hd.
  destruct (ReadResponse E _ _) as [[? ?]|?]; cbn [snd];
    change (?e :: ?l ++ ?l')%list with ([e] ++ l ++ l')%list;
    rewrite !connWrites_app, connWrites_writes; cbn;
    by rewrite app_nil_r.
Qed.

Lemma headerLines_elem (hs : list (string * list string)) (line : string) :
  line ∈ headerLines hs <->
  exists name values value,
    (name, values) ∈ hs /\ value ∈ values
    /\ line = name +:+ ": " +:+ value +:+ CRLF.
Proof.
  unfold headerLines. rewrite list_elem_of_bind. split.
  - intros ([name values] & Hl & Hin).
    apply list_elem_of_fmap in Hl as (value & -> & Hv).
    by exists name, values, value.
  - intros (name & values & value & Hin & Hv & ->).
    exists (name, values). split; [|done].
    apply list_elem_of_fmap. by exists value.
Qed.

(** C6 as the specification has it fails: the same request, sent twice
    over a network that behaves the same, is written with its header lines
    in two different orders, depending on the order in which Go ranges over
    the header map.  No order of the request object is preserved. *)
Lemma header_order_not_preserved :
  rangeOk envUp /\ rangeOk envUpRev
  /\ connWrites (events (sendRequestManually envUp 0%nat exampleWorld))
     = ["GET / HTTP/1.1" +:+ CRLF;
        "Connection: close" +:+ CRLF;
        "User-Agent: curl/8.0" +:+ CRLF;
        "Accept: text/html" +:+ CRLF;
        "Accept: */*" +:+ CRLF;
        "Host: example.test" +:+ CRLF;
        CRLF]
  /\ connWrites (events (sendRequestManually envUpRev 0%nat exampleWorld))
     = ["GET / HTTP/1.1" +:+ CRLF;
        "Host: example.test" +:+ CRLF;
        "Accept: text/html" +:+ CRLF;
        "Accept: */*" +:+ CRLF;
        "User-Agent: curl/8.0" +:+ CRLF;
        "Connection: close" +:+ CRLF;
        CRLF]
  /\ connWrites (events (sendRequestManually envUp 0%nat exampleWorld))
     <> connWrites (events (sendRequestManually envUpRev 0%nat exampleWorld)).
Proof.
  split; [|split; [|split; [|split]]].
  - intros h. reflexivity.
  - intros h. apply reverse_Permutation.
  - vm_compute. reflexivity.
  - vm_compute. reflexivity.
  - vm_compute. discriminate.
Qed.

(** C6, amended.  When the dial succeeds, [sendRequestManually] writes the
    request line, then one [name: value] line for each value of each entry
    of the header map of the request object (as it is after the [Host]
    header was set), then the blank line.  The entries are taken in the
    order of Go's [range] over the map, which is some permutation [hs] of
    the entries; the values of one name follow each other in their stored
    order, names and values are written as stored, and no line is added,
    dropped or merged. *)
Theorem sendRequestManually_writes :
  forall (E : Env) (req : ReqPtr) (w : World),
    rangeOk E ->
    let out := sendRequestManually E req w in
    let q' := requests (store (final out)) req in
    Dial E (String.eqb (Scheme (Request.URL q')) "https")
           (Host (Request.URL q')) = None ->
    exists hs : list (string * list string),
      hs ≡ₚ map_to_list (Request.Header q')
      /\ connWrites (events out)
         = ([Request.Method q' +:+ " " +:+ URL_RequestURI (Request.URL q')
               +:+ " HTTP/1.1" +:+ CRLF]
            ++ headerLines hs ++ [CRLF])%list
      /\ headerLines hs ≡ₚ headerLines (map_to_list (Request.Header q'))
      /\ (forall line : string,
            line ∈ headerLines hs <->
            exists name values value,
              Request.Header q' !! name = Some values /\ value ∈ values
              /\ line = name +:+ ": " +:+ value +:+ CRLF).
Proof.
  intros E req w Hok out q'.
  assert (Hq' : q' = setHostAndPort (requests (store w) req)).
  { subst q' out. rewrite sendRequestManually_run.
    cbn [final fst snd mapStore store]. unfold compose.
    rewrite sendOutcome_requests. cbn [storeReq requests].
    by rewrite fn_lookup_insert. }
  intros Hd. exists (rangeHeader E (Request.Header q')).
  split; [apply Hok|]. split; [|split].
  - subst out. rewrite sendRequestManually_run. cbn [events snd].
    rewrite <- Hq'. by rewrite sendOutcome_writes.
  - unfold headerLines. by rewrite (Hok (Request.Header q')).
  - intros line. rewrite headerLines_elem.
    split; intros (name & values & value & Hin & Hv & ->);
      exists name, values, value; (split; [|done]).
    + apply elem_of_map_to_list. by rewrite <- (Hok (Request.Header q')).
    + rewrite (Hok (Request.Header q')). by apply elem_of_map_to_list.
Qed.

(** The theorem at [exampleRequest], with an origin that accepts the
    connection. *)
Lemma sendRequestManually_writes_witness :
  exists hs : list (string * list string),
    hs ≡ₚ map_to_list
            (Request.Header
               (requests
                  (store (final (sendRequestManually envUp 0%nat exampleWorld)))
                  0%nat))
    /\ connWrites (events (sendRequestManually envUp 0%nat exampleWorld))
       = (["GET / HTTP/1.1" +:+ CRLF] ++ headerLines hs ++ [CRLF])%list.
Proof.
  destruct (sendRequestManually_writes envUp 0%nat exampleWorld)
    as (hs & Hp & Hw & _).
  - intros h. reflexivity.
  - reflexivity.
  - exists hs. split; [exact Hp | exact Hw].
Defined.

(** ** Events, results and final states of composed computations *)

Lemma events_bind {A B} (m : M A) (f : A -> M B) (w : World) :
  events ((m ≫= f) w)
  = (events (m w) ++ events (f (result (m w)) (final (m w))))%list.
Proof.
  rewrite run_bind. destruct (m w) as [[a w1] t1]. cbn.
  by destruct (f a w1) as [[b w2] t2].
Qed.

Lemma final_bind {A B} (m : M A) (f : A -> M B) (w : World) :
  final ((m ≫= f) w) = final (f (result (m w)) (final (m w))).
Proof.
  rewrite run_bind. destruct (m w) as [[a w1] t1]. cbn.
  by destruct (f a w1) as [[b w2] t2].
Qed.

Lemma result_bind {A B} (m : M A) (f : A -> M B) (w : World) :
  result ((m ≫= f) w) = result (f (result (m w)) (final (m w))).
Proof.
  rewrite run_bind. destruct (m w) as [[a w1] t1]. cbn.
  by destruct (f a w1) as [[b w2] t2].
Qed.

Lemma events_liftStore {A} (f : Store -> A * Store) (w : World) :
  events (liftStore f w) = [].
Proof. unfold liftStore. by destruct (f (store w)). Qed.

Lemma result_liftStore {A} (f : Store -> A * Store) (w : World) :
  result (liftStore f w) = (f (store w)).1.
Proof. unfold liftStore. by destruct (f (store w)). Qed.

Lemma final_liftStore {A} (f : Store -> A * Store) (w : World) :
  final (liftStore f w) = mapStore (fun _ => (f (store w)).2) w.
Proof. unfold liftStore. by destruct (f (store w)). Qed.

Lemma sendRequestManually_events E req w :
  events (sendRequestManually E req w)
  = (sendOutcome E (setHostAndPort (requests (store w) req))).2.
Proof. by rewrite sendRequestManually_run. Qed.

Lemma RoundTrip_events E req w :
  events (RoundTrip E req w)
  = EvRoundTrip req
      :: (sendOutcome E (setHostAndPort (requests (store w) req))).2.
Proof.
  rewrite RoundTrip_run. cbv zeta. unfold events at 1. cbn [snd].
  by rewrite sendRequestManually_events.
Qed.

(** ** The header sanitizer *)

Lemma removeProxyHeaders_run (r : ReqPtr) (w : World) :
  let out := removeProxyHeaders r w in
  events out = [EvRemoveProxyHeaders r]
  /\ requests (store (final out)) r = sanitized (requests (store w) r)
  /\ (forall p, p <> r ->
        requests (store (final out)) p = requests (store w) p)
  /\ responses (store (final out)) = responses (store w)
  /\ ctx (store (final out)) = ctx (store w).
Proof.
  unfold removeProxyHeaders.
  repeat (rewrite run_bind;
          cbn [emit modifyReq modifyStore getReq mapStore store requests
               responses ctx storeReq]).
  rewrite !fn_lookup_insert. fold (sanitizedHeaders (requests (store w) r)).
  unfold sanitized.
  destruct (String.eqb _ _); cbn;
    rewrite ?fn_lookup_insert; (split; [done|]); (split; [done|]);
    (split; [|done]); intros p Hp; by rewrite !fn_lookup_insert_ne.
Qed.

(** ** Which events a function can emit *)

Lemma Forall_events_bind {A B} (P : Event -> Prop) (m : M A) (f : A -> M B)
    (w : World) :
  Forall P (events (m w)) ->
  (forall a w', Forall P (events (f a w'))) ->
  Forall P (events ((m ≫= f) w)).
Proof. intros Hm Hf. rewrite events_bind. apply Forall_app; auto. Qed.

Ltac ev_step :=
  match goal with
  | |- Forall _ (events ((_ ≫= _) _)) =>
      apply Forall_events_bind; [|intros ? ?]
  | |- Forall _ (events (liftStore _ _)) =>
      rewrite events_liftStore; apply Forall_nil_2
  | |- Forall _ (events (emit _ _)) => by apply Forall_singleton
  | |- Forall _ (events ((if ?b then _ else _) _)) => destruct b
  | |- Forall _ (events ((match ?x with _ => _ end) _)) => destruct x
  | |- Forall _ (events _) => by apply Forall_nil_2
  end.

Lemma filterRequest_loop_kind hs i r req resp w :
  Forall (fun e => isReqHandle e = true)
         (events (filterRequest_loop hs i r req resp w)).
Proof.
  revert i req resp w.
  induction hs as [|h hs IH]; intros i req resp w; cbn [filterRequest_loop].
  - by apply Forall_nil_2.
  - repeat ev_step; auto.
Qed.

Lemma filterResponse_loop_kind hs i resp w :
  Forall (fun e => isRespHandle e = true)
         (events (filterResponse_loop hs i resp w)).
Proof.
  revert i resp w.
  induction hs as [|h hs IH]; intros i resp w; cbn [filterResponse_loop].
  - by apply Forall_nil_2.
  - repeat ev_step; auto.
Qed.

Lemma filterResponse_kind proxy resp w :
  Forall (fun e => isRespHandle e = true)
         (events (filterResponse proxy resp w)).
Proof. apply filterResponse_loop_kind. Qed.

Lemma filterRequest_kind proxy r w :
  Forall (fun e => isReqHandle e = true) (events (filterRequest proxy r w)).
Proof. apply filterRequest_loop_kind. Qed.

Lemma sendOutcome_kind E q :
  Forall (fun e => isTransport e = true) (sendOutcome E q).2.
Proof.
  unfold sendOutcome. destruct (Dial E _ _); [by apply Forall_singleton|].
  destruct (ReadResponse E _ _) as [[? ?]|?]; cbn [snd];
    (constructor; [done|]);
    (apply Forall_app; split; [|by apply Forall_singleton]);
    by apply Forall_fmap, Forall_true.
Qed.

Lemma RoundTrip_kind E r w :
  Forall (fun e => isTransport e = true) (events (RoundTrip E r w)).
Proof.
  rewrite RoundTrip_events. constructor; [done|].
  apply sendOutcome_kind.
Qed.

Lemma ServeHTTP_reply_kind E proxy r resp w :
  Forall (fun e => isRespHandle e || isReply e = true)
         (events (ServeHTTP_reply E proxy r resp w)).
Proof.
  unfold ServeHTTP_reply, closeOrig.
  ev_step; [by apply Forall_nil_2|].
  ev_step.
  { eapply list.Forall_impl; [apply filterResponse_kind|].
    intros e He. cbn beta in He. by rewrite He. }
  repeat ev_step.
Qed.

Lemma ServeHTTP_send_kind E proxy r w :
  KeepHeader proxy = true ->
  Forall (fun e => isWebsocket e || isTransport e || isRespHandle e = true)
         (events (ServeHTTP_send E proxy r w)).
Proof.
  intros Hk. unfold ServeHTTP_send. rewrite Hk. cbn [negb].
  ev_step; [by apply Forall_nil_2|].
  ev_step; [repeat ev_step|].
  ev_step; [by apply Forall_nil_2|].
  ev_step.
  { eapply list.Forall_impl; [apply RoundTrip_kind|].
    intros e He. cbn beta in He. rewrite He. by rewrite orb_true_r. }
  destruct a2 as [resp [e|]]; [|by apply Forall_nil_2].
  ev_step; [by apply Forall_nil_2|].
  eapply list.Forall_impl; [apply filterResponse_kind|].
  intros e' He. cbn beta in He. rewrite He. by rewrite orb_true_r.
Qed.

Lemma ServeHTTP_keepHeader_kind E proxy r w :
  KeepHeader proxy = true ->
  Forall (fun e => isSanitizer e = false) (events (ServeHTTP E proxy r w)).
Proof.
  intros Hk. unfold ServeHTTP, ServeHTTP_proxied, newCtx.
  ev_step; [by apply Forall_nil_2|].
  ev_step; [by apply Forall_singleton|].
  ev_step; [repeat ev_step|].
  ev_step; [by apply Forall_singleton|].
  ev_step.
  { eapply list.Forall_impl; [apply filterRequest_kind|]. by intros []. }
  destruct a1 as [r' [resp|]].
  - ev_step; [by apply Forall_nil_2|].
    eapply list.Forall_impl; [apply ServeHTTP_reply_kind|]. by intros [].
  - ev_step.
    + eapply list.Forall_impl; [by apply ServeHTTP_send_kind|]. by intros [].
    + eapply list.Forall_impl; [apply ServeHTTP_reply_kind|]. by intros [].
Qed.

(** ** The [Connection: close] special case *)

Lemma Header_Get_close (h : http_Header) :
  Header_Get h "Connection" = "close" ->
  exists vs, h !! "Connection" = Some ("close" :: vs).
Proof.
  unfold Header_Get.
  change (CanonicalMIMEHeaderKey "Connection") with "Connection".
  destruct (h !! "Connection") as [[|v vs]|]; try discriminate.
  intros ->. by exists vs.
Qed.

Lemma sanitizedHeaders_Connection (q : Request.t) :
  Request.Header (sanitizedHeaders q) !! "Connection"
  = Request.Header q !! "Connection".
Proof.
  unfold sanitizedHeaders, delHeader, Header_Del. cbn.
  by rewrite !lookup_delete_ne.
Qed.

Lemma sanitized_Header (q : Request.t) :
  Request.Header (sanitized q) = Request.Header (sanitizedHeaders q).
Proof. unfold sanitized. by destruct (String.eqb _ _). Qed.

Lemma setHostAndPort_Header (q : Request.t) :
  Request.Header (setHostAndPort q)
  = <["Host" := [URL_Hostname (Request.URL q)]]> (Request.Header q).
Proof.
  unfold setHostAndPort. cbn.
  destruct (Strings.Contains _ _); cbn; [|destruct (String.eqb _ _)]; done.
Qed.

Lemma sendOutcome_dialled E q tls addr :
  EvDial tls addr None ∈ (sendOutcome E q).2 ->
  Dial E (String.eqb (Scheme (Request.URL q)) "https")
         (Host (Request.URL q)) = None.
Proof.
  unfold sendOutcome. destruct (Dial E _ _) as [e|] eqn:Hd; [|done].
  cbn [snd]. intros H. apply list_elem_of_singleton in H. discriminate.
Qed.

(** C8.  For a request whose [Connection] header reads [close]:
    [removeProxyHeaders] clears the [Close] flag of the request object and
    leaves the [Connection] entry of the header map as it was, so that the
    sender that runs next, once it has dialled, writes the line
    [Connection: close].  [ServeHTTP] calls [removeProxyHeaders] when
    [KeepHeader] is false, and never when it is true. *)
Theorem Connection_close_kept :
  forall (E : Env) (proxy : ProxyHttpServer) (r : ReqPtr) (w : World),
    let q := requests (store w) r in
    (Header_Get (Request.Header q) "Connection" = "close" ->
     let q1 := requests (store (final (removeProxyHeaders r w))) r in
     let sent := (removeProxyHeaders r ≫= fun _ => RoundTrip E r) w in
     Request.Close q1 = false
     /\ Request.Header q1 !! "Connection" = Request.Header q !! "Connection"
     /\ Header_Get (Request.Header q1) "Connection" = "close"
     /\ (rangeOk E ->
         forall tls addr,
           EvDial tls addr None ∈ events sent ->
           ("Connection: close" +:+ CRLF) ∈ connWrites (events sent)))
    /\ (KeepHeader proxy = false ->
        EvRemoveProxyHeaders r ∈ events (ServeHTTP_send E proxy r w))
    /\ (KeepHeader proxy = true ->
        Forall (fun e => isSanitizer e = false)
               (events (ServeHTTP E proxy r w))).
Proof.
  intros E proxy r w q. split; [|split].
  - intros Hc q1 sent.
    destruct (removeProxyHeaders_run r w) as (Hev & Hq1 & _).
    fold q in Hq1. fold q1 in Hq1.
    destruct (Header_Get_close _ Hc) as [vs Hvs].
    assert (Hl : Request.Header q1 !! "Connection" = Some ("close" :: vs)).
    { by rewrite Hq1, sanitized_Header, sanitizedHeaders_Connection. }
    assert (Hg : Header_Get (Request.Header q1) "Connection" = "close").
    { unfold Header_Get.
      change (CanonicalMIMEHeaderKey "Connection") with "Connection".
      by rewrite Hl. }
    split; [|split; [|split]]; [|congruence|done|].
    + rewrite Hq1. unfold sanitized.
      rewrite <- sanitized_Header, <- Hq1, Hg. done.
    + intros Hok tls addr. subst sent.
      rewrite events_bind, Hev, RoundTrip_events. fold q1.
      set (q2 := setHostAndPort q1).
      intros Hin.
      assert (Hd : Dial E (String.eqb (Scheme (Request.URL q2)) "https")
                          (Host (Request.URL q2)) = None).
      { apply (sendOutcome_dialled E q2 tls addr).
        cbn in Hin. apply elem_of_cons in Hin as [?|Hin]; [done|].
        apply elem_of_cons in Hin as [?|Hin]; [done|]. exact Hin. }
      change ([EvRemoveProxyHeaders r] ++ EvRoundTrip r :: ?l)%list
        with ([EvRemoveProxyHeaders r; EvRoundTrip r] ++ l)%list.
      rewrite connWrites_app, sendOutcome_writes by done.
      cbn [connWrites omap app]. unfold requestWrites.
      apply elem_of_cons. right. apply elem_of_app. left.
      apply headerLines_elem. exists "Connection", ("close" :: vs), "close".
      split; [|split; [by left|done]].
      rewrite (Hok (Request.Header q2)). apply elem_of_map_to_list.
      subst q2. rewrite setHostAndPort_Header.
      by rewrite lookup_insert_ne.
  - intros Hk. unfold ServeHTTP_send. rewrite Hk. cbn [negb].
    rewrite events_bind, events_bind, events_bind.
    destruct (removeProxyHeaders_run r
                (final ((if isWebSocketRequest E (result (getReq r w))
                         then emit (EvServeWebsocket r)
                              ≫= fun _ => modifyStore (serveWebsocket E r)
                         else mret ()) (final (getReq r w)))))
      as (Hev & _).
    rewrite Hev. apply elem_of_app. right. apply elem_of_app. right.
    apply elem_of_app. left. by left.
  - apply ServeHTTP_keepHeader_kind.
Qed.

(** The theorem at [exampleRequest], which carries [Connection: close] and
    has its [Close] flag set, with an origin that accepts the connection. *)
Lemma Connection_close_kept_witness :
  Request.Close (requests (store exampleWorld) 0%nat) = true
  /\ Request.Close
       (requests (store (final (removeProxyHeaders 0%nat exampleWorld))) 0%nat)
     = false
  /\ ("Connection: close" +:+ CRLF)
       ∈ connWrites
           (events ((removeProxyHeaders 0%nat
                       ≫= fun _ => RoundTrip envUp 0%nat) exampleWorld))
  /\ EvRemoveProxyHeaders 0%nat
       ∈ events (ServeHTTP_send envUp proxyPlain 0%nat exampleWorld)
  /\ Forall (fun e => isSanitizer e = false)
            (events (ServeHTTP envUp proxyKeeping 0%nat exampleWorld)).
Proof.
  destruct (Connection_close_kept envUp proxyPlain 0%nat exampleWorld)
    as (H1 & H2 & _).
  destruct (Connection_close_kept envUp proxyKeeping 0%nat exampleWorld)
    as (_ & _ & H3).
  destruct (H1 eq_refl) as (Hc & _ & _ & Hs).
  split; [reflexivity|]. split; [exact Hc|].
  split; [|split; [exact (H2 eq_refl) | exact (H3 eq_refl)]].
  apply (Hs (fun h => reflexivity _) false "example.test:80").
  apply list_elem_of_lookup. exists 2%nat. reflexivity.
Defined.

(** ** The [Content-Length] header of the final response *)

Lemma final_closeOrig (o : option BodyId) (w : World) :
  final (closeOrig o w) = w.
Proof. by destruct o. Qed.

Lemma ServeHTTP_reply_Header E proxy r resp w p :
  let origBody :=
    (fun p0 => Response.Body (responses (store w) p0)) <$> resp in
  let filtered := filterResponse proxy resp w in
  result filtered = Some p ->
  let rs := responses (store (final filtered)) p in
  responses (store (final (ServeHTTP_reply E proxy r resp w))) p
  = if decide (origBody = Some (Response.Body rs)) then rs
    else Response.setHeader
           (Header_Del (Response.Header rs) "Content-Length") rs.
Proof.
  intros origBody filtered Hres rs.
  unfold ServeHTTP_reply.
  rewrite final_bind. cbn [getStore result final fst snd].
  rewrite final_bind. fold filtered. rewrite Hres.
  repeat (rewrite final_bind;
          cbn [getResp getWHeader putWHeader emit result final fst snd]).
  rewrite final_closeOrig. cbn [store]. fold origBody. fold rs.
  destruct (decide (origBody = Some (Response.Body rs))); [done|].
  cbn. by rewrite fn_lookup_insert.
Qed.



(** ** The request filter chain *)

Lemma filterRequest_loop_inputs hs i r req resp w :
  Forall (fun x => x = r)
         (reqInputs (events (filterRequest_loop hs i r req resp w))).
Proof.
  revert i req resp w.
  induction hs as [|h hs IH]; intros i req resp w; cbn [filterRequest_loop].
  - by apply Forall_nil_2.
  - rewrite events_bind. cbn [emit events result final fst snd app].
    rewrite events_bind, events_liftStore. cbn [app reqInputs omap].
    constructor; [done|].
    destruct (result _) as [req' [cr|]]; [by apply Forall_nil_2 | apply IH].
Qed.

(** C7 at a chain of two request filters, the first of which returns a new
    request object (at address 5, with one more header): the second filter
    is called on the inbound request 0, not on request 5, and the request
    that the chain returns, which is then forwarded, is request 0, without
    the header. *)
Theorem filterRequest_second_filter_gets_inbound_request :
  reqHandlers proxyTagging = [tagRequest; passRequest]
  /\ (tagRequest 0%nat (store exampleWorld)).1 = (5%nat, None)
  /\ reqInputs (events (filterRequest proxyTagging 0%nat exampleWorld))
     = [0%nat; 0%nat]
  /\ result (filterRequest proxyTagging 0%nat exampleWorld) = (0%nat, None)
  /\ (let s := store (final (filterRequest proxyTagging 0%nat exampleWorld)) in
      Request.Header (requests s 5%nat) !! "X-Tag" = Some ["1"]
      /\ Request.Header (requests s 0%nat) !! "X-Tag" = None).
Proof. repeat split; vm_compute; reflexivity. Qed.

(** ** WebSocket upgrades *)

(** C4 at an upgrade request and a server without filters: after
    [serveWebsocket] has returned, [ServeHTTP] goes on with the header
    sanitizer and the transport sender, and then answers the client. *)
Theorem ServeHTTP_continues_after_websocket :
  isWebSocketRequest envUp (requests (store exampleWorld) 1%nat) = true
  /\ events (ServeHTTP envUp proxyPlain 1%nat exampleWorld)
     = [EvServeWebsocket 1%nat; EvRemoveProxyHeaders 1%nat;
        EvRoundTrip 1%nat; EvDial false "example.test:80" None;
        EvConnWrite ("GET /chat HTTP/1.1" +:+ CRLF);
        EvConnWrite ("Connection: Upgrade" +:+ CRLF);
        EvConnWrite ("Upgrade: websocket" +:+ CRLF);
        EvConnWrite ("Host: example.test" +:+ CRLF);
        EvConnWrite CRLF;
        EvReadResponse (inl 1%nat); EvWriteHeader 200;
        EvCopy false 1%nat; EvBodyClose 1%nat; EvBodyClose 1%nat].
Proof. split; vm_compute; reflexivity. Qed.

Lemma ServeHTTP_send_websocket E proxy r w :
  isWebSocketRequest E (requests (store w) r) = true ->
  exists rest,
    events (ServeHTTP_send E proxy r w) = EvServeWebsocket r :: rest
    /\ EvRoundTrip r ∈ rest.
Proof.
  intros Hws. unfold ServeHTTP_send.
  rewrite events_bind. cbn [getReq events result final fst snd app].
  rewrite Hws. rewrite events_bind, events_bind.
  cbn [emit events result final fst snd app].
  eexists. split; [reflexivity|].
  cbn [modifyStore events snd app].
  rewrite events_bind. apply elem_of_app. right.
  rewrite events_bind. apply elem_of_app. left.
  rewrite RoundTrip_events. by left.
Qed.

(** ** One turn of each filter loop *)

Lemma filterRequest_loop_cons h hs i r req resp w :
  filterRequest_loop (h :: hs) i r req resp w =
  let x := h r (store w) in
  let w1 := mapStore (fun _ => x.2) w in
  match x.1.2 with
  | Some _ => (x.1, w1, [EvReqHandle i r])
  | None =>
      let o := filterRequest_loop hs (S i) r x.1.1 None w1 in
      (result o, final o, EvReqHandle i r :: events o)
  end.
Proof.
  cbn [filterRequest_loop]. rewrite run_bind. cbn [emit].
  rewrite run_bind. unfold liftStore.
  destruct (h r (store w)) as [[rq [c|]] s]; cbn; [done|].
  by destruct (filterRequest_loop hs (S i) r rq None _) as [[a w2] t].
Qed.

Lemma filterResponse_loop_cons h hs i resp w :
  filterResponse_loop (h :: hs) i resp w =
  let w0 := mapStore (fun s => storeCtx (setResp resp (ctx s)) s) w in
  let x := h resp (store w0) in
  let o := filterResponse_loop hs (S i) x.1 (mapStore (fun _ => x.2) w0) in
  (result o, final o, EvRespHandle i resp :: events o).
Proof.
  cbn [filterResponse_loop]. rewrite run_bind. cbn [modifyCtx modifyStore].
  rewrite run_bind. cbn [emit]. rewrite run_bind. unfold liftStore.
  destruct (h resp _) as [resp' s]; cbn.
  by destruct (filterResponse_loop hs (S i) resp' _) as [[a w2] t].
Qed.

(** A chain none of whose filters answers has called them all, each on
    the inbound request. *)
Lemma filterRequest_loop_all pre i r req resp w :
  (result (filterRequest_loop pre i r req resp w)).2 = None ->
  events (filterRequest_loop pre i r req resp w)
  = (fun j => EvReqHandle j r) <$> seq i (length pre).
Proof.
  revert i req resp w.
  induction pre as [|h0 pre IH]; intros i req resp w; [done|].
  rewrite filterRequest_loop_cons. cbv zeta.
  destruct (h0 r (store w)) as [[rq [c|]] s]; cbn [fst snd result events];
    [done|].
  intros Hn. cbn [length seq fmap list_fmap]. f_equal. by apply IH.
Qed.

(** The filter that answers ends the chain. *)
Lemma filterRequest_loop_canned pre h post i r req resp w rq' cr :
  let ran := filterRequest_loop pre i r req resp w in
  (result ran).2 = None ->
  (h r (store (final ran))).1 = (rq', Some cr) ->
  filterRequest_loop (pre ++ h :: post) i r req resp w
  = ((rq', Some cr),
     mapStore (fun _ => (h r (store (final ran))).2) (final ran),
     (events ran ++ [EvReqHandle (i + length pre) r])%list).
Proof.
  revert i req resp w.
  induction pre as [|h0 pre IH]; intros i req resp w ran Hn Hh.
  - subst ran. cbn [app length] in *. rewrite Nat.add_0_r.
    rewrite filterRequest_loop_cons. cbv zeta.
    cbn [filterRequest_loop final events fst snd] in *.
    rewrite run_ret in Hh. cbn [fst snd] in Hh.
    rewrite run_ret. unfold final, events in *. cbn [fst snd app] in *.
    by rewrite Hh.
  - subst ran. revert Hn Hh. cbn [app length].
    rewrite !filterRequest_loop_cons. cbv zeta.
    destruct (h0 r (store w)) as [[rq [c|]] s]; cbn [fst snd result final
      events]; [done|].
    intros Hn Hh. rewrite (IH (S i) rq None _ Hn Hh).
    cbn [result final events fst snd app].
    by rewrite Nat.add_succ_r.
Qed.

Lemma respIdx_cons (i : nat) (a : option RespPtr) (l : list Event) :
  respIdx (EvRespHandle i a :: l) = i :: respIdx l.
Proof. reflexivity. Qed.

Lemma filterResponse_loop_idx hs i resp w :
  respIdx (events (filterResponse_loop hs i resp w)) = seq i (length hs).
Proof.
  revert i resp w. induction hs as [|h hs IH]; intros i resp w; [done|].
  rewrite filterResponse_loop_cons. cbv zeta. unfold events at 1. cbn [snd].
  rewrite respIdx_cons. cbn [length seq]. f_equal. apply IH.
Qed.


(** ** Projections of a trace whose events are of another kind *)

Lemma omap_none {A} (f : Event -> option A) (l : list Event) :
  Forall (fun e => f e = None) l -> omap f l = [].
Proof. induction 1 as [|e l He _ IH]; [done|]. cbn. by rewrite He. Qed.

Lemma existsb_none (p : Event -> bool) (l : list Event) :
  Forall (fun e => p e = false) l -> existsb p l = false.
Proof. induction 1 as [|e l He _ IH]; [done|]. cbn. by rewrite He. Qed.

Lemma reqIdx_none (l : list Event) :
  Forall (fun e => isReqHandle e = false) l -> reqIdx l = [].
Proof.
  intros H. apply omap_none. eapply list.Forall_impl; [exact H|].
  by intros [].
Qed.

Lemma respIdx_none (l : list Event) :
  Forall (fun e => isRespHandle e = false) l -> respIdx l = [].
Proof.
  intros H. apply omap_none. eapply list.Forall_impl; [exact H|].
  by intros [].
Qed.

Lemma respInputs_none (l : list Event) :
  Forall (fun e => isRespHandle e = false) l -> respInputs l = [].
Proof.
  intros H. apply omap_none. eapply list.Forall_impl; [exact H|].
  by intros [].
Qed.

Lemma transportFailed_none (l : list Event) :
  Forall (fun e => isTransportError e = false) l -> transportFailed l = false.
Proof. apply existsb_none. Qed.

Lemma transportFailed_app (t1 t2 : list Event) :
  transportFailed (t1 ++ t2) = transportFailed t1 || transportFailed t2.
Proof. apply existsb_app. Qed.

Lemma respIdx_app (t1 t2 : list Event) :
  respIdx (t1 ++ t2) = (respIdx t1 ++ respIdx t2)%list.
Proof. apply omap_app. Qed.

Lemma respInputs_app (t1 t2 : list Event) :
  respInputs (t1 ++ t2) = (respInputs t1 ++ respInputs t2)%list.
Proof. apply omap_app. Qed.

Lemma reqIdx_app (t1 t2 : list Event) :
  reqIdx (t1 ++ t2) = (reqIdx t1 ++ reqIdx t2)%list.
Proof. apply omap_app. Qed.

Lemma reqIdx_handles (r : ReqPtr) (l : list nat) :
  reqIdx ((fun j => EvReqHandle j r) <$> l) = l.
Proof. induction l as [|x l IH]; [done|]. cbn. by f_equal. Qed.

(** ** The dispatcher *)

Lemma ServeHTTP_abs E proxy r w0 :
  String.eqb (Request.Method (requests (store w0) r)) "CONNECT" = false ->
  URL_IsAbs (Request.URL (requests (store w0) r)) = true ->
  ServeHTTP E proxy r w0
  = ServeHTTP_proxied E proxy r (final (newCtx r w0)).
Proof.
  intros Hm Ha. unfold ServeHTTP. rewrite run_bind. cbn [getReq].
  rewrite Hm, Ha. cbn [negb]. rewrite run_bind.
  unfold newCtx at 1. rewrite run_bind. cbn [AddInt64_sess modifyStore].
  unfold newCtx. rewrite final_bind. cbn [AddInt64_sess result final fst snd
    modifyStore].
  by destruct (ServeHTTP_proxied E proxy r _) as [[a w] t].
Qed.

Lemma ServeHTTP_proxied_canned E proxy r w rq' cr w2 t :
  filterRequest proxy r w = ((rq', Some cr), w2, t) ->
  ServeHTTP_proxied E proxy r w
  = (result (ServeHTTP_reply E proxy rq' (Some cr) w2),
     final (ServeHTTP_reply E proxy rq' (Some cr) w2),
     (t ++ events (ServeHTTP_reply E proxy rq' (Some cr) w2))%list).
Proof.
  intros Hf. unfold ServeHTTP_proxied. rewrite run_bind, Hf.
  rewrite run_bind, run_ret.
  by destruct (ServeHTTP_reply E proxy rq' (Some cr) w2) as [[a w3] t3].
Qed.

Lemma ServeHTTP_reply_events E proxy r resp w :
  exists rest,
    events (ServeHTTP_reply E proxy r resp w)
    = (events (filterResponse proxy resp w) ++ rest)%list
    /\ Forall (fun e => isReply e = true) rest.
Proof.
  unfold ServeHTTP_reply. rewrite events_bind.
  cbn [getStore events result final fst snd app].
  rewrite events_bind. eexists. split; [reflexivity|].
  unfold closeOrig. repeat ev_step.
Qed.

(** C2.  Let the request filters be [pre ++ h :: post], let none of [pre]
    answer the request, and let [h] return the canned response [resp].
    Then [ServeHTTP] calls the filters of [pre] and [h], each once and in
    order, and no filter of [post]; it emits no event of the transport
    sender (no call of [RoundTrip], no dial, no write, no read); and what
    follows the call of [h] is the last part of [ServeHTTP] run on [resp],
    so that the first response filter, if there is one, is called on
    [resp]. *)
Theorem canned_response_skips_transport :
  forall (E : Env) (proxy : ProxyHttpServer) (r : ReqPtr) (w0 : World)
         (pre : list ReqHandler) (h : ReqHandler) (post : list ReqHandler)
         (rq' : ReqPtr) (resp : RespPtr),
    String.eqb (Request.Method (requests (store w0) r)) "CONNECT" = false ->
    URL_IsAbs (Request.URL (requests (store w0) r)) = true ->
    reqHandlers proxy = (pre ++ h :: post)%list ->
    let ran := filterRequest_loop pre 0%nat r r None (final (newCtx r w0)) in
    (result ran).2 = None ->
    (h r (store (final ran))).1 = (rq', Some resp) ->
    let w2 := mapStore (fun _ => (h r (store (final ran))).2) (final ran) in
    let out := ServeHTTP E proxy r w0 in
    reqIdx (events out) = seq 0 (S (length pre))
    /\ Forall (fun e => isTransport e = false) (events out)
    /\ events out
       = (((fun i => EvReqHandle i r) <$> seq 0 (S (length pre)))
          ++ events (ServeHTTP_reply E proxy rq' (Some resp) w2))%list
    /\ final out = final (ServeHTTP_reply E proxy rq' (Some resp) w2)
    /\ (respHandlers proxy <> [] ->
        head (respInputs (events out)) = Some (Some resp)).
Proof.
  intros E proxy r w0 pre h post rq' resp Hm Ha Hhs ran Hn Hh w2 out.
  assert (Hout : out
    = (result (ServeHTTP_reply E proxy rq' (Some resp) w2),
       final (ServeHTTP_reply E proxy rq' (Some resp) w2),
       (((fun i => EvReqHandle i r) <$> seq 0 (S (length pre)))
        ++ events (ServeHTTP_reply E proxy rq' (Some resp) w2))%list)).
  { subst out. rewrite (ServeHTTP_abs E proxy r w0 Hm Ha).
    apply ServeHTTP_proxied_canned. unfold filterRequest. rewrite Hhs.
    etrans;
      [exact (filterRequest_loop_canned pre h post 0%nat r r None _ rq' resp
                Hn Hh)|].
    fold ran. fold w2. f_equal. subst ran.
    rewrite (filterRequest_loop_all pre 0%nat r r None _ Hn).
    replace (S (length pre)) with (length pre + 1)%nat by lia.
    by rewrite seq_app, fmap_app. }
  assert (Hk := ServeHTTP_reply_kind E proxy rq' (Some resp) w2).
  rewrite Hout. cbn [events final fst snd].
  split; [|split; [|split; [done|split; [done|]]]].
  - rewrite reqIdx_app, reqIdx_handles, reqIdx_none; [by rewrite app_nil_r|].
    eapply list.Forall_impl; [exact Hk|]. by intros [].
  - apply Forall_app. split.
    + by apply Forall_fmap, Forall_true.
    + eapply list.Forall_impl; [exact Hk|]. by intros [].
  - intros Hne. rewrite respInputs_app.
    rewrite respInputs_none by by apply Forall_fmap, Forall_true.
    cbn [app].
    destruct (ServeHTTP_reply_events E proxy rq' (Some resp) w2)
      as (rest & -> & _).
    unfold filterResponse.
    destruct (respHandlers proxy) as [|h1 hs1]; [done|].
    rewrite respInputs_app, filterResponse_loop_cons. done.
Qed.

(** The theorem at a chain of three request filters, the second of which
    answers with the canned response 2. *)
Lemma canned_response_skips_transport_witness :
  reqIdx (events (ServeHTTP envUp proxyBlocking 0%nat exampleWorld))
  = [0%nat; 1%nat]
  /\ Forall (fun e => isTransport e = false)
            (events (ServeHTTP envUp proxyBlocking 0%nat exampleWorld))
  /\ head (respInputs
             (events (ServeHTTP envUp proxyBlocking 0%nat exampleWorld)))
     = Some (Some 2%nat).
Proof.
  destruct (canned_response_skips_transport
              envUp proxyBlocking 0%nat exampleWorld
              [passRequest] blockRequest [tagRequest] 0%nat 2%nat
              eq_refl eq_refl eq_refl eq_refl eq_refl)
    as (H1 & H2 & _ & _ & H3).
  split; [exact H1|]. split; [exact H2|]. apply H3. discriminate.
Defined.

(** ** The response filter chain *)

Lemma sendOutcome_failed E q :
  transportFailed (sendOutcome E q).2
  = match (sendOutcome E q).1.1.2 with Some _ => true | None => false end.
Proof.
  unfold sendOutcome. destruct (Dial E _ _); [done|].
  destruct (ReadResponse E _ _) as [[? ?]|?]; cbn [fst snd];
    change (?e :: ?l ++ ?l')%list with ([e] ++ l ++ l')%list;
    rewrite !transportFailed_app;
    rewrite (transportFailed_none (EvConnWrite <$> _))
      by (by apply Forall_fmap, Forall_true);
    done.
Qed.

Lemma RoundTrip_result E r w :
  result (RoundTrip E r w)
  = (sendOutcome E (setHostAndPort (requests (store w) r))).1.1.
Proof.
  rewrite RoundTrip_run. cbv zeta. unfold result at 1. cbn [fst].
  by rewrite sendRequestManually_run.
Qed.

Lemma ServeHTTP_send_events E proxy r w :
  exists pre q w',
    Forall (fun e => isWebsocket e || isSanitizer e = true) pre
    /\ events (ServeHTTP_send E proxy r w)
       = (pre ++ EvRoundTrip r :: (sendOutcome E q).2
          ++ match (sendOutcome E q).1.1.2 with
             | Some _ => events (filterResponse proxy None w')
             | None => []
             end)%list.
Proof.
  unfold ServeHTTP_send.
  rewrite events_bind. cbn [getReq events result final fst snd app].
  rewrite events_bind.
  set (m1 := if isWebSocketRequest E _ then _ else _).
  rewrite events_bind.
  set (m2 := if negb (KeepHeader proxy) then _ else _).
  rewrite events_bind, RoundTrip_events, RoundTrip_result.
  set (w3 := final (m2 _)).
  set (q := setHostAndPort (requests (store w3) r)).
  exists (events (m1 w) ++ events (m2 (final (m1 w))))%list, q.
  assert (Hpre : Forall (fun e => isWebsocket e || isSanitizer e = true)
                        (events (m1 w) ++ events (m2 (final (m1 w))))).
  { apply Forall_app. split.
    - subst m1. repeat ev_step.
    - subst m2. destruct (negb (KeepHeader proxy)); [|by apply Forall_nil_2].
      destruct (removeProxyHeaders_run r (final (m1 w))) as (-> & _).
      by apply Forall_singleton. }
  destruct (sendOutcome E q) as [[[resp [e|]] f] t] eqn:Hso;
    cbn [fst snd].
  - eexists. split; [exact Hpre|].
    rewrite <- !app_assoc. cbn [app]. rewrite events_bind. reflexivity.
  - exists w. split; [exact Hpre|].
    rewrite <- !app_assoc. reflexivity.
Qed.


Lemma ServeHTTP_reply_resp E proxy r resp w :
  let ev := events (ServeHTTP_reply E proxy r resp w) in
  transportFailed ev = false
  /\ respIdx ev = seq 0 (length (respHandlers proxy))
  /\ (respHandlers proxy <> [] -> head (respInputs ev) = Some resp).
Proof.
  intros ev. subst ev. split; [|split].
  - apply transportFailed_none.
    eapply list.Forall_impl; [apply ServeHTTP_reply_kind|]. by intros [].
  - destruct (ServeHTTP_reply_events E proxy r resp w) as (rest & -> & Hr).
    rewrite respIdx_app, (respIdx_none rest).
    + rewrite app_nil_r. apply filterResponse_loop_idx.
    + eapply list.Forall_impl; [exact Hr|]. by intros [].
  - destruct (ServeHTTP_reply_events E proxy r resp w) as (rest & -> & Hr).
    rewrite respInputs_app. unfold filterResponse.
    destruct (respHandlers proxy) as [|h hs]; [done|]. intros _.
    by rewrite filterResponse_loop_cons.
Qed.




(** ** The response that enters the last part of [ServeHTTP]

    When the transport sender did not fail, the response that
    [ServeHTTP_send] hands on is the one [http.ReadResponse] parsed, as it
    was read from the origin. *)
Lemma ServeHTTP_send_success E proxy r w :
  let out := ServeHTTP_send E proxy r w in
  transportFailed (events out) = false ->
  exists addr ws p0 R0,
    ReadResponse E addr ws = inl (p0, R0)
    /\ result out = Some p0
    /\ responses (store (final out)) p0 = R0.
Proof.
  intros out. subst out. unfold ServeHTTP_send.
  rewrite events_bind, result_bind, final_bind.
  cbn [getReq events result final fst snd app].
  rewrite events_bind, result_bind, final_bind.
  set (m1 := if isWebSocketRequest E _ then _ else _).
  rewrite events_bind, result_bind, final_bind.
  set (m2 := if negb (KeepHeader proxy) then _ else _).
  rewrite events_bind, result_bind, final_bind.
  rewrite RoundTrip_events, RoundTrip_result.
  set (w3 := final (m2 _)).
  rewrite RoundTrip_run. cbv zeta. unfold final at 1 3. cbn [fst snd].
  rewrite sendRequestManually_run. cbv zeta. unfold final at 1 2.
  cbn [fst snd].
  set (q := setHostAndPort (requests (store w3) r)).
  rewrite !transportFailed_app.
  change (EvRoundTrip r :: ?l)%list with ([EvRoundTrip r] ++ l)%list.
  rewrite !transportFailed_app, sendOutcome_failed.
  unfold sendOutcome.
  destruct (Dial E _ _) as [e|]; cbn [fst snd].
  { rewrite !orb_false_iff. by intros (_ & _ & (_ & Ht) & _). }
  destruct (ReadResponse E _ _) as [[p0 R0]|e] eqn:Hr; cbn [fst snd].
  - intros _. eexists _, _, p0, R0. split; [exact Hr|].
    rewrite run_ret. unfold result, final. cbn [fst snd mapStore store].
    unfold compose. cbn [storeResp responses]. split; [done|].
    rewrite run_ret. cbn [fst snd mapStore store storeResp responses].
    by rewrite fn_lookup_insert.
  - rewrite !orb_false_iff. by intros (_ & _ & (_ & Ht) & _).
Qed.

(** ** Worked examples *)

Example Hostname_port : splitHost "example.test:8080" = "example.test".
Proof. reflexivity. Qed.

Example Hostname_v6 : splitHost "[::1]:443" = "::1".
Proof. reflexivity. Qed.

Example Hostname_plain : splitHost "example.test" = "example.test".
Proof. reflexivity. Qed.

Example canonical_lower :
  CanonicalMIMEHeaderKey "content-type" = "Content-Type".
Proof. reflexivity. Qed.

Example canonical_space : CanonicalMIMEHeaderKey "a b" = "a b".
Proof. reflexivity. Qed.

(** A refused connection: the call returns the error, and the request has
    its [Host] header and its port all the same. *)
Example sendRequestManually_refused :
  let out := sendRequestManually envDown 0%nat exampleWorld in
  result out = (None, Some "connection refused")
  /\ Host (Request.URL (requests (store (final out)) 0%nat))
     = "example.test:80"
  /\ Request.Header (requests (store (final out)) 0%nat) !! "Host"
     = Some ["example.test"]
  /\ Request.Header (requests (store exampleWorld) 0%nat) !! "Host" = None.
Proof. repeat split; vm_compute; reflexivity. Qed.

(** The whole of [ServeHTTP] on [exampleRequest]: a response filter that
    replaces the body makes the response lose [Content-Length]; one that
    passes the response on leaves it. *)
Example ServeHTTP_replaced_body :
  Response.Header
    (responses
       (store (final (ServeHTTP envUp proxyReplacing 0%nat exampleWorld)))
       1%nat) !! "Content-Length" = None
  /\ wHeader (final (ServeHTTP envUp proxyReplacing 0%nat exampleWorld))
     !! "Content-Length" = None.
Proof. split; vm_compute; reflexivity. Qed.

Example ServeHTTP_same_body :
  Response.Header
    (responses
       (store (final (ServeHTTP envUp proxyOneResp 0%nat exampleWorld)))
       1%nat) !! "Content-Length" = Some ["5"]
  /\ wHeader (final (ServeHTTP envUp proxyOneResp 0%nat exampleWorld))
     !! "Content-Length" = Some ["5"].
Proof. split; vm_compute; reflexivity. Qed.

(** The session counter wraps around as an [int64] does. *)
Example wrap64_max : wrap64 (2 ^ 63 - 1 + 1) = - 2 ^ 63.
Proof. reflexivity. Qed.

(** * Further properties *)

(** ** The session counter *)

Lemma keeps_sess_bind {A B} (m : M A) (f : A -> M B) (w : World) :
  sess (final (m w)) = sess w ->
  (forall a w', sess (final (f a w')) = sess w') ->
  sess (final ((m ≫= f) w)) = sess w.
Proof. intros Hm Hf. rewrite final_bind. by rewrite Hf. Qed.

Ltac sess_step :=
  match goal with
  | |- sess (final ((_ ≫= _) _)) = _ =>
      apply keeps_sess_bind; [|intros ? ?]
  | |- sess (final (liftStore _ _)) = _ => by rewrite final_liftStore
  | |- sess (final ((if ?b then _ else _) _)) = _ => destruct b
  | |- sess (final ((match ?x with _ => _ end) _)) = _ => destruct x
  | |- sess (final _) = _ => reflexivity
  end.

Lemma filterRequest_loop_sess hs i r req resp w :
  sess (final (filterRequest_loop hs i r req resp w)) = sess w.
Proof.
  revert i req resp w.
  induction hs as [|h hs IH]; intros i req resp w; cbn [filterRequest_loop];
    [done|].
  repeat sess_step; auto.
Qed.

Lemma filterResponse_loop_sess hs i resp w :
  sess (final (filterResponse_loop hs i resp w)) = sess w.
Proof.
  revert i resp w.
  induction hs as [|h hs IH]; intros i resp w; cbn [filterResponse_loop];
    [done|].
  repeat sess_step; auto.
Qed.

Lemma RoundTrip_sess E r w : sess (final (RoundTrip E r w)) = sess w.
Proof.
  rewrite RoundTrip_run. cbv zeta. unfold final at 1. cbn [fst snd].
  by rewrite sendRequestManually_run.
Qed.

Lemma removeProxyHeaders_sess r w :
  sess (final (removeProxyHeaders r w)) = sess w.
Proof. unfold removeProxyHeaders. repeat sess_step. Qed.

Lemma ServeHTTP_send_sess E proxy r w :
  sess (final (ServeHTTP_send E proxy r w)) = sess w.
Proof.
  unfold ServeHTTP_send.
  sess_step; [done|]. sess_step; [repeat sess_step|].
  sess_step.
  { destruct (negb (KeepHeader proxy)); [apply removeProxyHeaders_sess|done]. }
  sess_step; [apply RoundTrip_sess|].
  destruct a2 as [resp [e|]]; [|done].
  sess_step; [done|]. apply filterResponse_loop_sess.
Qed.

Lemma ServeHTTP_reply_sess E proxy r resp w :
  sess (final (ServeHTTP_reply E proxy r resp w)) = sess w.
Proof.
  unfold ServeHTTP_reply, closeOrig.
  sess_step; [done|]. sess_step; [apply filterResponse_loop_sess|].
  repeat sess_step.
Qed.

Lemma wrap64_in_range (z : Z) :
  - 2 ^ 63 <= z < 2 ^ 63 -> wrap64 z = z.
Proof.
  intros Hz. unfold wrap64.
  rewrite Z.mod_small by lia. lia.
Qed.

(** X1.  A request whose method is not CONNECT takes exactly one session
    number, whatever its URL, the filters and the network do: the context
    is created with the counter plus one, wrapped as an [int64], and that
    is the value of the counter when [ServeHTTP] returns.  Away from the
    largest [int64] the new number is the old one plus one; at the largest
    it is the smallest [int64]. *)
Theorem ServeHTTP_takes_one_session :
  forall (E : Env) (proxy : ProxyHttpServer) (r : ReqPtr) (w0 : World),
    String.eqb (Request.Method (requests (store w0) r)) "CONNECT" = false ->
    sess (final (ServeHTTP E proxy r w0)) = wrap64 (sess w0 + 1)
    /\ Session (ctx (store (final (newCtx r w0)))) = wrap64 (sess w0 + 1)
    /\ (- 2 ^ 63 <= sess w0 < 2 ^ 63 - 1 ->
        wrap64 (sess w0 + 1) = sess w0 + 1)
    /\ (sess w0 = 2 ^ 63 - 1 -> wrap64 (sess w0 + 1) = - 2 ^ 63).
Proof.
  intros E proxy r w0 Hm. split; [|split; [done|split]].
  - unfold ServeHTTP. rewrite final_bind. cbn [getReq result final fst snd].
    rewrite Hm, final_bind.
    set (w := final (newCtx r w0)).
    assert (Hw : sess w = wrap64 (sess w0 + 1)) by done.
    rewrite <- Hw.
    destruct (negb (URL_IsAbs _)); [done|].
    unfold ServeHTTP_proxied.
    sess_step; [apply filterRequest_loop_sess|].
    destruct a as [rq cr].
    sess_step; [|apply ServeHTTP_reply_sess].
    destruct cr; [done|apply ServeHTTP_send_sess].
  - intros Hr. apply wrap64_in_range. lia.
  - intros ->. reflexivity.
Qed.

Lemma ServeHTTP_takes_one_session_witness :
  sess (final (ServeHTTP envUp proxyBlocking 0%nat exampleWorld)) = 1
  /\ Session (ctx (store (final (newCtx 0%nat exampleWorld)))) = 1.
Proof.
  destruct (ServeHTTP_takes_one_session
              envUp proxyBlocking 0%nat exampleWorld eq_refl)
    as (H1 & H2 & _).
  split; [exact H1 | exact H2].
Defined.

(** ** The answer to the client *)

Lemma ServeHTTP_reply_run E proxy r resp w :
  let origBody :=
    (fun p0 => Response.Body (responses (store w) p0)) <$> resp in
  let fr := filterResponse proxy resp w in
  events (ServeHTTP_reply E proxy r resp w)
  = (events fr
     ++ match result fr with
        | None =>
            [EvHttpError
               (match Error (ctx (store (final fr))) with
                | Some e => e
                | None =>
                    "error read response "
                    +:+ Host (Request.URL (requests (store (final fr)) r))
                end) 500]
        | Some p =>
            let rs := responses (store (final fr)) p in
            [EvWriteHeader (Response.StatusCode rs);
             EvCopy (String.eqb
                       (Header_Get
                          (wHeader (final (ServeHTTP_reply E proxy r resp w)))
                          "content-type")
                       "text/event-stream")
                    (Response.Body rs);
             EvBodyClose (Response.Body rs)]
        end
     ++ match origBody with Some b => [EvBodyClose b] | None => [] end)%list.
Proof.
  intros origBody fr. unfold ServeHTTP_reply.
  rewrite events_bind. cbn [getStore events result final fst snd app].
  rewrite events_bind, final_bind. cbn [getStore result final fst snd].
  rewrite final_bind. fold fr. fold origBody. f_equal.
  destruct (result fr) as [p|].
  - repeat (rewrite events_bind || rewrite final_bind;
            cbn [getResp getWHeader putWHeader emit events result final
                 fst snd app]).
    rewrite final_closeOrig. cbn [wHeader app].
    set (m := if decide _ then _ else _).
    assert (Hm : events (m (final fr)) = []) by (subst m; by destruct decide).
    assert (Hb : Response.Body (responses (store (final (m (final fr)))) p)
                 = Response.Body (responses (store (final fr)) p)).
    { subst m. destruct decide; [done|]. cbn. by rewrite fn_lookup_insert. }
    assert (Hc : Response.StatusCode
                   (responses (store (final (m (final fr)))) p)
                 = Response.StatusCode (responses (store (final fr)) p)).
    { subst m. destruct decide; [done|]. cbn. by rewrite fn_lookup_insert. }
    rewrite Hm, Hb, Hc. cbn [app]. by destruct origBody.
  - repeat (rewrite events_bind;
            cbn [getCtx getReq emit events result final fst snd app]).
    destruct (Error _); cbn [emit events snd app]; by destruct origBody.
Qed.

(** X3.  Every request with an absolute URL and a method other than
    CONNECT is answered by [ServeHTTP] exactly once, by [http.Error] or by
    [w.WriteHeader], whatever the filters and the network do. *)
Theorem ServeHTTP_answers_once :
  forall (E : Env) (proxy : ProxyHttpServer) (r : ReqPtr) (w0 : World),
    String.eqb (Request.Method (requests (store w0) r)) "CONNECT" = false ->
    URL_IsAbs (Request.URL (requests (store w0) r)) = true ->
    length (filter (fun e => isAnswer e = true)
                   (events (ServeHTTP E proxy r w0))) = 1%nat.
Proof.
  intros E proxy r w0 Hm Ha.
  rewrite (ServeHTTP_abs E proxy r w0 Hm Ha).
  set (w := final (newCtx r w0)).
  assert (Hnone : forall l : list Event,
             Forall (fun e => isAnswer e = false) l ->
             filter (fun e => isAnswer e = true) l = []).
  { induction 1 as [|e l He _ IH]; [done|].
    rewrite filter_cons_False; [done|]. by rewrite He. }
  assert (Hreply : forall rq resp w',
             length (filter (fun e => isAnswer e = true)
                       (events (ServeHTTP_reply E proxy rq resp w'))) = 1%nat).
  { intros rq resp w'. rewrite ServeHTTP_reply_run. cbv zeta.
    rewrite !list.filter_app, !length_app.
    rewrite (Hnone (events (filterResponse proxy resp w'))).
    2:{ eapply list.Forall_impl; [apply filterResponse_kind|]. by intros []. }
    rewrite (Hnone (match _ <$> resp with Some b => _ | None => _ end)).
    2:{ destruct resp; [by apply Forall_singleton | by apply Forall_nil_2]. }
    by destruct (result (filterResponse proxy resp w')). }
  unfold ServeHTTP_proxied. rewrite events_bind, list.filter_app, length_app.
  rewrite (Hnone (events (filterRequest proxy r w))).
  2:{ eapply list.Forall_impl; [apply filterRequest_kind|]. by intros []. }
  destruct (result (filterRequest proxy r w)) as [rq [cr|]].
  - rewrite events_bind, list.filter_app, length_app, Hreply. done.
  - rewrite events_bind, list.filter_app, length_app, Hreply.
    destruct (ServeHTTP_send_events E proxy rq
                (final (filterRequest proxy r w)))
      as (pre & q & w' & Hpre & ->).
    rewrite (Hnone (pre ++ _)%list); [done|].
    apply Forall_app. split.
    { eapply list.Forall_impl; [exact Hpre|]. by intros []. }
    constructor; [done|]. apply Forall_app. split.
    { eapply list.Forall_impl; [apply sendOutcome_kind|]. by intros []. }
    destruct (sendOutcome E q).1.1.2; [|by apply Forall_nil_2].
    eapply list.Forall_impl; [apply filterResponse_kind|]. by intros [].
Qed.

Lemma ServeHTTP_answers_once_witness :
  length (filter (fun e => isAnswer e = true)
                 (events (ServeHTTP envDown proxyOneResp 0%nat exampleWorld)))
  = 1%nat.
Proof.
  exact (ServeHTTP_answers_once envDown proxyOneResp 0%nat exampleWorld
           eq_refl eq_refl).
Defined.

(** X4.  When the response filters leave no response, the client gets
    status 500 and nothing else: the text is the error recorded on the
    context, or, when none is recorded, [error read response] followed by
    the host of the request URL.  No status line of a response is written
    and no body is copied. *)
Theorem ServeHTTP_reply_without_response :
  forall (E : Env) (proxy : ProxyHttpServer) (r : ReqPtr)
         (resp : option RespPtr) (w : World),
    let fr := filterResponse proxy resp w in
    result fr = None ->
    let c := ctx (store (final fr)) in
    let host := Host (Request.URL (requests (store (final fr)) r)) in
    filter (fun e => isReply e = true)
           (events (ServeHTTP_reply E proxy r resp w))
    = (EvHttpError (default ("error read response " +:+ host) (Error c)) 500
       :: match resp with
          | Some p => [EvBodyClose (Response.Body (responses (store w) p))]
          | None => []
          end).
Proof.
  intros E proxy r resp w fr Hres c host.
  rewrite ServeHTTP_reply_run. cbv zeta. fold fr. rewrite Hres.
  rewrite !list.filter_app.
  assert (Hnone : filter (fun e => isReply e = true) (events fr) = []).
  { assert (H := filterResponse_kind proxy resp w). fold fr in H.
    induction H as [|e l He _ IH]; [done|].
    rewrite filter_cons_False; [done|]. by destruct e. }
  rewrite Hnone. cbn [app]. fold c. fold host.
  destruct (Error c), resp; reflexivity.
Qed.

Lemma ServeHTTP_reply_without_response_witness :
  filter (fun e => isReply e = true)
         (events (ServeHTTP_reply envDown proxyPlain 0%nat None exampleWorld))
  = [EvHttpError "error read response example.test" 500].
Proof.
  exact (ServeHTTP_reply_without_response
           envDown proxyPlain 0%nat None exampleWorld eq_refl).
Defined.

(** X5.  When a response enters the last part of [ServeHTTP], the body it
    has at that moment is closed as the very last thing, on the error path
    too (the deferred call).  On the streaming path the body of the final
    response is closed just before: a body that no filter replaced is
    closed twice. *)
Theorem ServeHTTP_reply_closes_bodies :
  forall (E : Env) (proxy : ProxyHttpServer) (r : ReqPtr) (p : RespPtr)
         (w : World),
    let origBody := Response.Body (responses (store w) p) in
    let fr := filterResponse proxy (Some p) w in
    let ev := events (ServeHTTP_reply E proxy r (Some p) w) in
    list.last ev = Some (EvBodyClose origBody)
    /\ (forall p', result fr = Some p' ->
        exists pre,
          ev = (pre ++ [EvBodyClose
                          (Response.Body (responses (store (final fr)) p'));
                        EvBodyClose origBody])%list).
Proof.
  intros E proxy r p w origBody fr ev.
  assert (Hrun : exists flag,
    ev = (events fr
          ++ match result fr with
             | None =>
                 [EvHttpError
                    (match Error (ctx (store (final fr))) with
                     | Some e => e
                     | None =>
                         "error read response "
                         +:+ Host (Request.URL
                                     (requests (store (final fr)) r))
                     end) 500]
             | Some p' =>
                 [EvWriteHeader
                    (Response.StatusCode (responses (store (final fr)) p'));
                  EvCopy flag
                    (Response.Body (responses (store (final fr)) p'));
                  EvBodyClose
                    (Response.Body (responses (store (final fr)) p'))]
             end
          ++ [EvBodyClose origBody])%list).
  { eexists. subst ev. apply ServeHTTP_reply_run. }
  destruct Hrun as [flag Hrun]. clearbody ev fr. subst ev. split.
  - rewrite app_assoc. apply last_snoc.
  - intros p' ->.
    exists (events fr
            ++ [EvWriteHeader
                  (Response.StatusCode (responses (store (final fr)) p'));
                EvCopy flag
                  (Response.Body (responses (store (final fr)) p'))])%list.
    rewrite <- !app_assoc. reflexivity.
Qed.

Lemma ServeHTTP_reply_closes_bodies_witness :
  exists pre,
    events (ServeHTTP_reply envUp proxyOneResp 0%nat (Some 1%nat) exampleWorld)
    = (pre ++ [EvBodyClose 1%nat; EvBodyClose 1%nat])%list.
Proof.
  destruct (ServeHTTP_reply_closes_bodies
              envUp proxyOneResp 0%nat 1%nat exampleWorld) as (_ & H).
  exact (H 1%nat eq_refl).
Defined.

(** ** Copying headers to the client *)

Lemma addValues_lookup (d : http_Header) (k : string) (vs : list string)
    (k' : string) :
  foldl (fun d' v => Header_Add d' k v) d vs !! k'
  = if decide (CanonicalMIMEHeaderKey k = k')
    then match vs with
         | [] => d !! k'
         | _ => Some (default [] (d !! k') ++ vs)%list
         end
    else d !! k'.
Proof.
  revert d. induction vs as [|v vs IH]; intros d; cbn [foldl].
  - by destruct decide.
  - rewrite IH. unfold Header_Add. cbv zeta.
    destruct (decide (CanonicalMIMEHeaderKey k = k')) as [<-|Hne].
    + rewrite lookup_insert_eq. cbn [default].
      destruct vs; [done|]. unfold id. by rewrite <- app_assoc.
    + by rewrite lookup_insert_ne.
Qed.

Lemma copyValues_untouched (l : list (string * list string))
    (d : http_Header) (k' : string) :
  Forall (fun kv => CanonicalMIMEHeaderKey kv.1 <> k') l ->
  foldl (fun d '(k, vs) => foldl (fun d' v => Header_Add d' k v) d vs) d l
    !! k' = d !! k'.
Proof.
  intros H. revert d. induction H as [|[k vs] l Hk _ IH]; intros d; [done|].
  cbn [foldl]. rewrite IH, addValues_lookup. by destruct decide.
Qed.

Lemma copyValues_lookup (l : list (string * list string)) (d : http_Header)
    (k' : string) :
  Forall (fun kv => CanonicalMIMEHeaderKey kv.1 = kv.1) l ->
  NoDup l.*1 ->
  foldl (fun d '(k, vs) => foldl (fun d' v => Header_Add d' k v) d vs) d l
    !! k'
  = match (list_to_map l : http_Header) !! k' with
    | Some (v :: vs) => Some (default [] (d !! k') ++ v :: vs)%list
    | _ => d !! k'
    end.
Proof.
  intros Hc. revert d.
  induction Hc as [|[k vs] l Hk Hc IH]; intros d Hnd; [done|].
  cbn [fst] in Hk. cbn [foldl]. rewrite fmap_cons in Hnd.
  apply list.NoDup_cons in Hnd as [Hnin Hnd]. cbn [fst] in Hnin.
  rewrite IH by done. rewrite addValues_lookup, Hk.
  cbn [list_to_map foldr]. cbn [uncurry fst snd].
  destruct (decide (k = k')) as [<-|Hne].
  - rewrite lookup_insert_eq.
    rewrite (not_elem_of_list_to_map_1 _ k) by done.
    by destruct vs.
  - by rewrite lookup_insert_ne.
Qed.

Lemma delKeys_lookup (ks : list string) (d : http_Header) (k' : string) :
  foldl (fun d k => Header_Del d k) d ks !! k'
  = if decide (k' ∈ CanonicalMIMEHeaderKey <$> ks) then None else d !! k'.
Proof.
  revert d. induction ks as [|k ks IH]; intros d; cbn [foldl].
  - destruct decide as [H|]; [|done]. by apply elem_of_nil in H.
  - rewrite IH. unfold Header_Del. rewrite fmap_cons.
    destruct (decide (k' ∈ CanonicalMIMEHeaderKey <$> ks)) as [Hin|Hnin].
    + rewrite decide_True; [done|]. by right.
    + destruct (decide (CanonicalMIMEHeaderKey k = k')) as [<-|Hne].
      * rewrite lookup_delete_eq, decide_True; [done|]. by left.
      * rewrite lookup_delete_ne by done.
        rewrite decide_False; [done|].
        intros [?|?]%elem_of_cons; congruence.
Qed.

Lemma range_canonical E (h : http_Header) :
  rangeOk E -> canonicalKeys h ->
  Forall (fun kv => CanonicalMIMEHeaderKey kv.1 = kv.1) (rangeHeader E h).
Proof.
  intros Hok Hc. apply list.Forall_forall. intros [k vs] Hin.
  rewrite (Hok h) in Hin. apply elem_of_map_to_list in Hin.
  by apply (Hc k vs).
Qed.

Lemma range_NoDup E (h : http_Header) :
  rangeOk E -> NoDup (rangeHeader E h).*1.
Proof. intros Hok. rewrite (Hok h). apply NoDup_fst_map_to_list. Qed.

Lemma range_to_map E (h : http_Header) :
  rangeOk E -> list_to_map (rangeHeader E h) = h.
Proof. intros Hok. symmetry. apply list_to_map_flip. by rewrite (Hok h). Qed.

Lemma range_cleared E (dst : http_Header) :
  rangeOk E -> canonicalKeys dst ->
  foldl (fun d k => Header_Del d k) dst (rangeHeader E dst).*1 = ∅.
Proof.
  intros Hok Hc. apply map_eq. intros k'.
  rewrite delKeys_lookup, lookup_empty.
  destruct decide as [|Hnin]; [done|].
  destruct (dst !! k') as [vs|] eqn:Hk; [|done].
  exfalso. apply Hnin. apply list_elem_of_fmap. exists k'.
  split; [symmetry; by apply (Hc k' vs)|].
  apply list_elem_of_fmap. exists (k', vs). split; [done|].
  rewrite (Hok dst). by apply elem_of_map_to_list.
Qed.

Lemma copyHeaders_false_lookup E (dst src : http_Header) (k : string) :
  rangeOk E -> canonicalKeys dst -> canonicalKeys src ->
  copyHeaders E dst src false !! k
  = match src !! k with
    | Some (v :: vs) => Some (v :: vs)
    | _ => None
    end.
Proof.
  intros Hok Hd Hs. unfold copyHeaders. cbn [negb].
  rewrite range_cleared by done.
  rewrite copyValues_lookup
    by (by apply range_canonical || by apply range_NoDup).
  rewrite range_to_map by done. rewrite lookup_empty.
  by destruct (src !! k) as [[|v vs]|].
Qed.

Lemma copyHeaders_false_Get E (dst src : http_Header) (key : string) :
  rangeOk E -> canonicalKeys dst -> canonicalKeys src ->
  Header_Get (copyHeaders E dst src false) key = Header_Get src key.
Proof.
  intros Hok Hd Hs. unfold Header_Get.
  rewrite copyHeaders_false_lookup by done.
  by destruct (src !! _) as [[|v vs]|].
Qed.

(** X6.  [copyHeaders] with [keepDestHeaders] false, on maps whose keys
    are in canonical form, replaces the destination by the source: each
    key of the source arrives with its values in their order, a key of
    the source without values does not arrive, and nothing of the old
    destination is left.  So [Get] answers on the result as on the
    source, and a source without empty value lists is copied as it is. *)
Theorem copyHeaders_replaces :
  forall (E : Env) (dst src : http_Header),
    rangeOk E -> canonicalKeys dst -> canonicalKeys src ->
    (forall k,
       copyHeaders E dst src false !! k
       = match src !! k with
         | Some (v :: vs) => Some (v :: vs)
         | _ => None
         end)
    /\ (forall key, Header_Get (copyHeaders E dst src false) key
                    = Header_Get src key)
    /\ ((forall k, src !! k <> Some []) -> copyHeaders E dst src false = src).
Proof.
  intros E dst src Hok Hd Hs.
  split; [intros k; by apply copyHeaders_false_lookup|]. split.
  - intros key. by apply copyHeaders_false_Get.
  - intros Hne. apply map_eq. intros k.
    rewrite copyHeaders_false_lookup by done.
    destruct (src !! k) as [[|v vs]|] eqn:Hk; [|done..].
    by destruct (Hne k).
Qed.

Lemma copyHeaders_replaces_witness :
  copyHeaders envUpRev (Response.Header cannedResponse)
              (Response.Header exampleResponse) false
  = Response.Header exampleResponse.
Proof.
  destruct (copyHeaders_replaces envUpRev (Response.Header cannedResponse)
              (Response.Header exampleResponse)) as (_ & _ & H).
  - intros h. apply reverse_Permutation.
  - intros k vs Hk.
    apply elem_of_map_to_list in Hk. vm_compute in Hk.
    repeat (apply elem_of_cons in Hk as [Hk|Hk];
            [by inversion Hk|]).
    by apply elem_of_nil in Hk.
  - intros k vs Hk.
    apply elem_of_map_to_list in Hk. vm_compute in Hk.
    repeat (apply elem_of_cons in Hk as [Hk|Hk];
            [by inversion Hk|]).
    by apply elem_of_nil in Hk.
  - apply H. intros k Hk.
    apply elem_of_map_to_list in Hk. vm_compute in Hk.
    repeat (apply elem_of_cons in Hk as [Hk|Hk];
            [by inversion Hk|]).
    by apply elem_of_nil in Hk.
Defined.

(** X7.  [copyHeaders] with [keepDestHeaders] true, from a source whose
    keys are in canonical form, adds to the destination: under each key of
    the source that has values, these are appended, in their order, to the
    values the destination had; every other key of the destination keeps
    its values. *)
Theorem copyHeaders_appends :
  forall (E : Env) (dst src : http_Header) (k : string),
    rangeOk E -> canonicalKeys src ->
    copyHeaders E dst src true !! k
    = match src !! k with
      | Some (v :: vs) => Some (default [] (dst !! k) ++ v :: vs)%list
      | _ => dst !! k
      end.
Proof.
  intros E dst src k Hok Hs. unfold copyHeaders. cbn [negb].
  rewrite copyValues_lookup
    by (by apply range_canonical || by apply range_NoDup).
  by rewrite range_to_map.
Qed.

Lemma copyHeaders_appends_witness :
  copyHeaders envUp (Response.Header cannedResponse)
              (Response.Header exampleResponse) true !! "Content-Length"
  = Some ["9"; "5"].
Proof.
  rewrite (copyHeaders_appends envUp (Response.Header cannedResponse)
             (Response.Header exampleResponse) "Content-Length").
  - reflexivity.
  - intros h. reflexivity.
  - intros k vs Hk.
    apply elem_of_map_to_list in Hk. vm_compute in Hk.
    repeat (apply elem_of_cons in Hk as [Hk|Hk];
            [by inversion Hk|]).
    by apply elem_of_nil in Hk.
Defined.

(** X8.  The clearing loop of [copyHeaders] deletes the canonical form of
    each key of the destination, not the key: a key of the destination
    that is the canonical form of no key of the destination or of the
    source is still there afterwards, with its values, although
    [keepDestHeaders] is false. *)
Theorem copyHeaders_leaves_uncanonical_key :
  forall (E : Env) (dst src : http_Header) (k' : string),
    rangeOk E ->
    (forall k vs, dst !! k = Some vs -> CanonicalMIMEHeaderKey k <> k') ->
    (forall k vs, src !! k = Some vs -> CanonicalMIMEHeaderKey k <> k') ->
    copyHeaders E dst src false !! k' = dst !! k'.
Proof.
  intros E dst src k' Hok Hd Hs. unfold copyHeaders. cbn [negb].
  rewrite copyValues_untouched.
  - rewrite delKeys_lookup. rewrite decide_False; [done|].
    intros Hin. apply list_elem_of_fmap in Hin as (k & -> & Hin).
    apply list_elem_of_fmap in Hin as ([k0 vs] & -> & Hin).
    rewrite (Hok dst) in Hin. apply elem_of_map_to_list in Hin.
    by apply (Hd k0 vs).
  - apply list.Forall_forall. intros [k vs] Hin.
    rewrite (Hok src) in Hin. apply elem_of_map_to_list in Hin.
    by apply (Hs k vs).
Qed.

Lemma copyHeaders_leaves_uncanonical_key_witness :
  copyHeaders envUp {["x-custom" := ["1"]]} (Response.Header exampleResponse)
              false !! "x-custom"
  = Some ["1"].
Proof.
  rewrite (copyHeaders_leaves_uncanonical_key
             envUp {["x-custom" := ["1"]]} (Response.Header exampleResponse)
             "x-custom").
  - reflexivity.
  - intros h. reflexivity.
  - intros k vs Hk.
    apply elem_of_map_to_list in Hk. vm_compute in Hk.
    repeat (apply elem_of_cons in Hk as [Hk|Hk];
            [by inversion Hk|]).
    by apply elem_of_nil in Hk.
  - intros k vs Hk.
    apply elem_of_map_to_list in Hk. vm_compute in Hk.
    repeat (apply elem_of_cons in Hk as [Hk|Hk];
            [by inversion Hk|]).
    by apply elem_of_nil in Hk.
Defined.

(** ** Server-sent events *)

Lemma filterResponse_loop_wHeader hs i resp w :
  wHeader (final (filterResponse_loop hs i resp w)) = wHeader w.
Proof.
  revert i resp w.
  induction hs as [|h hs IH]; intros i resp w; [done|].
  rewrite filterResponse_loop_cons. cbv zeta. unfold final at 1.
  cbn [fst snd]. by rewrite IH.
Qed.

Lemma ServeHTTP_reply_wHeader E proxy r resp w p :
  let fr := filterResponse proxy resp w in
  result fr = Some p ->
  wHeader (final (ServeHTTP_reply E proxy r resp w))
  = copyHeaders E (wHeader w)
      (Response.Header
         (responses (store (final (ServeHTTP_reply E proxy r resp w))) p))
      (KeepDestinationHeaders proxy).
Proof.
  intros fr Hres.
  rewrite (ServeHTTP_reply_Header E proxy r resp w p Hres).
  unfold ServeHTTP_reply.
  rewrite final_bind. cbn [getStore result final fst snd].
  rewrite final_bind. fold fr. rewrite Hres.
  repeat (rewrite final_bind;
          cbn [getResp getWHeader putWHeader emit result final fst snd]).
  rewrite final_closeOrig. cbn [wHeader].
  assert (Hw : wHeader (final fr) = wHeader w)
    by apply filterResponse_loop_wHeader.
  destruct decide; cbn [mret M_ret final fst snd wHeader modifyResp
    modifyStore mapStore store storeResp responses]; rewrite Hw;
    [done|]. by rewrite fn_lookup_insert.
Qed.

(** X9.  With [KeepDestinationHeaders] false and header maps whose keys
    are in canonical form, the body of the final response is copied
    through the flushing writer exactly when the first [Content-Type]
    value of that response is the string [text/event-stream]; a value
    that only starts with it, or differs in case, gets the plain copy. *)
Theorem ServeHTTP_reply_flushes_event_stream :
  forall (E : Env) (proxy : ProxyHttpServer) (r : ReqPtr)
         (resp : option RespPtr) (w : World) (p : RespPtr),
    rangeOk E ->
    KeepDestinationHeaders proxy = false ->
    let fr := filterResponse proxy resp w in
    result fr = Some p ->
    let rs := responses (store (final fr)) p in
    canonicalKeys (wHeader w) ->
    canonicalKeys (Response.Header rs) ->
    filter (fun e => isCopy e = true)
           (events (ServeHTTP_reply E proxy r resp w))
    = [EvCopy (String.eqb (Header_Get (Response.Header rs) "Content-Type")
                          "text/event-stream")
              (Response.Body rs)].
Proof.
  intros E proxy r resp w p Hok Hk fr Hres rs Hcw Hcr.
  rewrite ServeHTTP_reply_run. cbv zeta.
  rewrite (ServeHTTP_reply_wHeader E proxy r resp w p Hres), Hk.
  rewrite (ServeHTTP_reply_Header E proxy r resp w p Hres).
  fold fr. fold rs. rewrite Hres.
  set (h := Response.Header (if decide _ then _ else _)).
  assert (Hch : canonicalKeys h).
  { subst h. destruct decide; [done|]. intros k vs. cbn.
    unfold Header_Del. intros Hl. apply lookup_delete_Some in Hl as [_ Hl].
    by apply (Hcr k vs). }
  assert (Hget : Header_Get h "Content-Type"
                 = Header_Get (Response.Header rs) "Content-Type").
  { subst h. destruct decide; [done|]. cbn. unfold Header_Get, Header_Del.
    change (CanonicalMIMEHeaderKey "Content-Type") with "Content-Type".
    change (CanonicalMIMEHeaderKey "Content-Length") with "Content-Length".
    by rewrite lookup_delete_ne. }
  rewrite (copyHeaders_false_Get E (wHeader w) h "content-type" Hok Hcw Hch).
  change (Header_Get h "content-type") with (Header_Get h "Content-Type").
  rewrite Hget. clearbody h.
  rewrite !list.filter_app.
  assert (Hnone : filter (fun e => isCopy e = true) (events fr) = []).
  { assert (H := filterResponse_kind proxy resp w). fold fr in H.
    induction H as [|e l He _ IH]; [done|].
    rewrite filter_cons_False; [done|]. by destruct e. }
  rewrite Hnone. cbn [app].
  by destruct resp.
Qed.

Lemma ServeHTTP_reply_flushes_event_stream_witness :
  filter (fun e => isCopy e = true)
         (events (ServeHTTP_reply envUp proxyOneResp 0%nat (Some 1%nat)
                    exampleWorld))
  = [EvCopy false 1%nat].
Proof.
  apply (ServeHTTP_reply_flushes_event_stream
           envUp proxyOneResp 0%nat (Some 1%nat) exampleWorld 1%nat).
  - intros h. reflexivity.
  - reflexivity.
  - reflexivity.
  - intros k vs Hk.
    apply elem_of_map_to_list in Hk. vm_compute in Hk.
    by apply elem_of_nil in Hk.
  - intros k vs Hk.
    apply elem_of_map_to_list in Hk. vm_compute in Hk.
    repeat (apply elem_of_cons in Hk as [Hk|Hk];
            [by inversion Hk|]).
    by apply elem_of_nil in Hk.
Defined.

(** ** More on the header sanitizer *)

Lemma sanitizedHeaders_Header (q : Request.t) :
  Request.Header (sanitizedHeaders q)
  = delete "Proxy-Authorization"
      (delete "Proxy-Authenticate"
         (delete "Proxy-Connection"
            (delete "Accept-Encoding" (Request.Header q)))).
Proof. reflexivity. Qed.

Lemma sanitizedHeaders_lookup (q : Request.t) (k : string) :
  Request.Header (sanitizedHeaders q) !! k
  = if isProxyHeader k then None else Request.Header q !! k.
Proof.
  rewrite sanitizedHeaders_Header. unfold isProxyHeader.
  destruct (String.eqb_spec k "Proxy-Authorization") as [->|H4].
  { by rewrite lookup_delete_eq. }
  rewrite lookup_delete_ne by congruence.
  destruct (String.eqb_spec k "Proxy-Authenticate") as [->|H3].
  { by rewrite lookup_delete_eq. }
  rewrite lookup_delete_ne by congruence.
  destruct (String.eqb_spec k "Proxy-Connection") as [->|H2].
  { by rewrite lookup_delete_eq. }
  rewrite lookup_delete_ne by congruence.
  destruct (String.eqb_spec k "Accept-Encoding") as [->|H1].
  { by rewrite lookup_delete_eq. }
  by rewrite lookup_delete_ne by congruence.
Qed.

(** X10.  [removeProxyHeaders] empties the [RequestURI] field of the
    request and removes the four headers [Accept-Encoding],
    [Proxy-Connection], [Proxy-Authenticate] and [Proxy-Authorization],
    so that [Get] answers the empty string for them in any spelling of
    the name.  Every other key of the header map keeps its values, method
    and URL are as before, and no other request, no response and nothing
    of the context is touched. *)
Theorem removeProxyHeaders_strips :
  forall (r : ReqPtr) (w : World),
    let q := requests (store w) r in
    let out := removeProxyHeaders r w in
    let q' := requests (store (final out)) r in
    Request.RequestURI q' = ""
    /\ (forall key,
          isProxyHeader (CanonicalMIMEHeaderKey key) = true ->
          Header_Get (Request.Header q') key = "")
    /\ (forall k,
          isProxyHeader k = false ->
          Request.Header q' !! k = Request.Header q !! k)
    /\ Request.Method q' = Request.Method q
    /\ Request.URL q' = Request.URL q
    /\ (forall p, p <> r ->
          requests (store (final out)) p = requests (store w) p)
    /\ responses (store (final out)) = responses (store w)
    /\ ctx (store (final out)) = ctx (store w).
Proof.
  intros r w q out q'.
  destruct (removeProxyHeaders_run r w) as (_ & Hq' & Hp & Hr & Hc).
  fold out in Hq', Hp, Hr, Hc. fold q in Hq'. fold q' in Hq'.
  assert (Hh : Request.Header q' = Request.Header (sanitizedHeaders q))
    by (by rewrite Hq', sanitized_Header).
  split; [|split; [|split; [|split; [|split; [|split; [|split]]]]]];
    try done.
  - rewrite Hq'. unfold sanitized. by destruct (String.eqb _ _).
  - intros key Hkey. unfold Header_Get.
    by rewrite Hh, sanitizedHeaders_lookup, Hkey.
  - intros k Hk. by rewrite Hh, sanitizedHeaders_lookup, Hk.
  - rewrite Hq'. unfold sanitized. by destruct (String.eqb _ _).
  - rewrite Hq'. unfold sanitized. by destruct (String.eqb _ _).
Qed.

Lemma removeProxyHeaders_strips_witness :
  let w := mapStore
             (storeReq 0%nat
                (Request.setHeader
                   (<["Accept-Encoding" := ["gzip"]]>
                      (Request.Header exampleRequest)) exampleRequest))
             exampleWorld in
  Header_Get (Request.Header (requests (store w) 0%nat)) "accept-encoding"
  = "gzip"
  /\ Header_Get
       (Request.Header
          (requests (store (final (removeProxyHeaders 0%nat w))) 0%nat))
       "accept-encoding" = ""
  /\ Request.Header
       (requests (store (final (removeProxyHeaders 0%nat w))) 0%nat)
     !! "User-Agent" = Some ["curl/8.0"].
Proof.
  intros w.
  destruct (removeProxyHeaders_strips 0%nat w) as (_ & H1 & H2 & _).
  split; [reflexivity|]. split.
  - apply H1. reflexivity.
  - rewrite H2; reflexivity.
Defined.

Lemma sanitizedHeaders_idemp (q : Request.t) :
  sanitizedHeaders (sanitizedHeaders q) = sanitizedHeaders q.
Proof.
  assert (Hh : Request.Header (sanitizedHeaders (sanitizedHeaders q))
               = Request.Header (sanitizedHeaders q)).
  { apply map_eq. intros k. rewrite !sanitizedHeaders_lookup.
    by destruct (isProxyHeader k). }
  destruct q as [m u h ru c].
  change (sanitizedHeaders (Request.mk m u h ru c))
    with (Request.mk m u
            (Request.Header (sanitizedHeaders (Request.mk m u h ru c)))
            "" c) at 2.
  rewrite <- Hh. reflexivity.
Qed.

(** X11.  Running [removeProxyHeaders] a second time on the same request
    changes nothing more: the request object after two runs is the one
    after the first. *)
Theorem removeProxyHeaders_idempotent :
  forall (r : ReqPtr) (w : World),
    requests
      (store (final ((removeProxyHeaders r
                        ≫= fun _ => removeProxyHeaders r) w))) r
    = requests (store (final (removeProxyHeaders r w))) r.
Proof.
  intros r w. rewrite final_bind.
  destruct (removeProxyHeaders_run r w) as (_ & Hq1 & _).
  destruct (removeProxyHeaders_run r (final (removeProxyHeaders r w)))
    as (_ & Hq2 & _).
  rewrite Hq2, Hq1. set (q := requests (store w) r).
  unfold sanitized.
  destruct (String.eqb
              (Header_Get (Request.Header (sanitizedHeaders q)) "Connection")
              "close") eqn:Hc.
  - change (sanitizedHeaders (Request.setClose false (sanitizedHeaders q)))
      with (Request.setClose false (sanitizedHeaders (sanitizedHeaders q))).
    rewrite sanitizedHeaders_idemp.
    change (Request.Header (Request.setClose false (sanitizedHeaders q)))
      with (Request.Header (sanitizedHeaders q)).
    by rewrite Hc.
  - by rewrite sanitizedHeaders_idemp, Hc.
Qed.

(** X12.  [removeProxyHeaders] leaves the [Close] flag of the request as
    it was unless the first [Connection] value is exactly [close]; the
    comparison is by bytes, so [Close] or [keep-alive, close] do not
    clear the flag. *)
Theorem removeProxyHeaders_keeps_Close_otherwise :
  forall (r : ReqPtr) (w : World),
    let q := requests (store w) r in
    Header_Get (Request.Header q) "Connection" <> "close" ->
    Request.Close (requests (store (final (removeProxyHeaders r w))) r)
    = Request.Close q.
Proof.
  intros r w q Hne.
  destruct (removeProxyHeaders_run r w) as (_ & -> & _). fold q.
  unfold sanitized.
  destruct (String.eqb _ _) eqn:Hc; [|done].
  exfalso. apply Hne. apply String.eqb_eq in Hc. rewrite <- Hc.
  unfold Header_Get. by rewrite sanitizedHeaders_Connection.
Qed.

Lemma removeProxyHeaders_keeps_Close_otherwise_witness :
  let w := mapStore
             (storeReq 0%nat
                (Request.setHeader
                   (<["Connection" := ["Close"]]>
                      (Request.Header exampleRequest)) exampleRequest))
             exampleWorld in
  Request.Close (requests (store (final (removeProxyHeaders 0%nat w))) 0%nat)
  = true.
Proof.
  intros w.
  apply (removeProxyHeaders_keeps_Close_otherwise 0%nat w).
  intros H. vm_compute in H. discriminate H.
Defined.

(** ** More on the transport sender *)

Lemma Contains_app_r (s t sub : string) :
  Strings.Contains t sub = true -> Strings.Contains (s +:+ t) sub = true.
Proof.
  intros Ht. induction s as [|a s IH]; [done|].
  change (String a s +:+ t) with (String a (s +:+ t)).
  cbn [Strings.Contains]. rewrite IH. by destruct (String.prefix _ _).
Qed.


(** X13.  [sendRequestManually] returns either a response and no error,
    or an error and no response.  With a response, the store holds at the
    returned address what [http.ReadResponse] parsed and every other
    response is as before; with an error, no response of the store has
    changed. *)
Theorem sendRequestManually_response_or_error :
  forall (E : Env) (req : ReqPtr) (w : World),
    let out := sendRequestManually E req w in
    (exists p R addr ws,
        result out = (Some p, None)
        /\ ReadResponse E addr ws = inl (p, R)
        /\ responses (store (final out)) p = R
        /\ forall p', p' <> p ->
             responses (store (final out)) p' = responses (store w) p')
    \/ (exists e,
          result out = (None, Some e)
          /\ responses (store (final out)) = responses (store w)).
Proof.
  intros E req w out. subst out. rewrite sendRequestManually_run.
  cbv zeta. unfold result, final. cbn [fst snd]. unfold sendOutcome.
  destruct (Dial E _ _) as [e|]; cbn [fst snd].
  { right. by exists e. }
  destruct (ReadResponse E _ _) as [[p R]|e] eqn:Hr; cbn [fst snd].
  - left. eexists p, R, _, _. split; [done|]. split; [exact Hr|].
    cbn [mapStore store compose storeResp responses]. split.
    + by rewrite fn_lookup_insert.
    + intros p' Hp'. by rewrite fn_lookup_insert_ne.
  - right. by exists e.
Qed.


(** A URL host that is an IPv6 literal without a port holds colons: no
    port is appended, and the address dialled is the literal. *)
Example sendRequestManually_v6_literal :
  let q := Request.mk "GET" (mkURL "http" "[::1]" "/") ∅ "" false in
  let w := mapStore (storeReq 0%nat q) exampleWorld in
  events (sendRequestManually envUp 0%nat w)
  = [EvDial false "[::1]" None;
     EvConnWrite ("GET / HTTP/1.1" +:+ CRLF);
     EvConnWrite ("Host: ::1" +:+ CRLF);
     EvConnWrite CRLF;
     EvReadResponse (inl 1%nat)].
Proof. vm_compute. reflexivity. Qed.

Lemma Contains_colon_cons (a : ascii) (s : string) :
  Strings.Contains (String a s) ":"
  = Ascii.eqb a ":" || Strings.Contains s ":".
Proof.
  cbn [Strings.Contains String.prefix].
  destruct (ascii_dec ":" a) as [<-|Hne]; [by destruct s|].
  replace (Ascii.eqb a ":") with false; [done|].
  symmetry. apply Ascii.eqb_neq. congruence.
Qed.

Lemma lastIndexFrom_none (s : string) (i : nat) (acc : option nat) :
  Strings.Contains s ":" = false ->
  Strings.lastIndexFrom ":" s i acc = acc.
Proof.
  revert i acc. induction s as [|a s IH]; intros i acc Hc; [done|].
  rewrite Contains_colon_cons in Hc. apply orb_false_iff in Hc as [Ha Hs].
  cbn [Strings.lastIndexFrom]. rewrite Ha. by apply IH.
Qed.

Lemma lastIndexFrom_app (h t : string) (i : nat) (acc : option nat) :
  Strings.Contains h ":" = false ->
  Strings.lastIndexFrom ":" (h +:+ String ":" t) i acc
  = Strings.lastIndexFrom ":" t (S (i + String.length h))
      (Some (i + String.length h)%nat).
Proof.
  revert i acc. induction h as [|a h IH]; intros i acc Hc.
  - cbn. by rewrite Nat.add_0_r.
  - rewrite Contains_colon_cons in Hc. apply orb_false_iff in Hc as [Ha Hs].
    change (String a h +:+ String ":" t)
      with (String a (h +:+ String ":" t)).
    cbn [Strings.lastIndexFrom String.length]. rewrite Ha, IH by done.
    by rewrite Nat.add_succ_r.
Qed.

Lemma from_app (h t : string) : Strings.from (String.length h) (h +:+ t) = t.
Proof. induction h as [|a h IH]; [by destruct t|]. exact IH. Qed.

Lemma upto_app (h t : string) : Strings.upto (String.length h) (h +:+ t) = h.
Proof.
  induction h as [|a h IH]; [by destruct t|].
  change (String a h +:+ t) with (String a (h +:+ t)).
  cbn [String.length Strings.upto]. by rewrite IH.
Qed.

Lemma splitHost_default_port (h : string) (port : string) :
  Strings.Contains h ":" = false ->
  port = "443" \/ port = "80" ->
  splitHost (h +:+ String ":" port) = splitHost h.
Proof.
  intros Hc Hp. unfold splitHost, Strings.LastIndexByte.
  rewrite lastIndexFrom_app, (lastIndexFrom_none h) by done.
  assert (Hl : Strings.lastIndexFrom ":" port
                 (S (0 + String.length h))
                 (Some (0 + String.length h)%nat)
               = Some (String.length h)).
  { destruct Hp as [->| ->]; reflexivity. }
  rewrite Hl, from_app, upto_app.
  by destruct Hp as [->| ->].
Qed.

Lemma setHostAndPort_idemp (q : Request.t) :
  setHostAndPort (setHostAndPort q) = setHostAndPort q.
Proof.
  destruct q as [m [sc host ru] h ruri c].
  unfold setHostAndPort, URL_Hostname, Header_Set.
  change (CanonicalMIMEHeaderKey "Host") with "Host".
  cbn [Request.URL Request.Header Request.setHeader Host Scheme].
  destruct (Strings.Contains host ":") eqn:Hc; cbn [negb].
  - cbn [Request.URL Request.Header Request.setHeader Host Scheme
         Request.Method Request.RequestURI Request.Close].
    rewrite Hc. cbn [negb]. by rewrite insert_insert_eq.
  - destruct (String.eqb sc "https") eqn:Hs;
      cbn [Request.URL Request.Header Request.setHeader Request.setURLHost
           Host Scheme Request.Method Request.RequestURI Request.Close
           URL_RequestURI];
      rewrite Contains_app_r by done; cbn [negb];
      rewrite insert_insert_eq;
      rewrite splitHost_default_port by (done || by (left + right));
      reflexivity.
Qed.

(** X15.  Sending the same request object a second time does not change
    it again: the port is appended to the host of the URL once, and the
    [Host] header holds the same host name after the second call as after
    the first. *)
Theorem sendRequestManually_twice :
  forall (E : Env) (req : ReqPtr) (w : World),
    requests
      (store (final ((sendRequestManually E req
                        ≫= fun _ => sendRequestManually E req) w))) req
    = requests (store (final (sendRequestManually E req w))) req.
Proof.
  intros E req w. rewrite final_bind.
  assert (Hq : forall w',
             requests (store (final (sendRequestManually E req w'))) req
             = setHostAndPort (requests (store w') req)).
  { intros w'. rewrite sendRequestManually_run.
    cbn [final fst snd mapStore store]. unfold compose.
    rewrite sendOutcome_requests. cbn [storeReq requests].
    by rewrite fn_lookup_insert. }
  by rewrite !Hq, setHostAndPort_idemp.
Qed.

(** ** How the filter chains compose *)

(** X16.  The response chain over [hs1 ++ hs2] is the chain over [hs1]
    followed by the chain over [hs2] on its result and final state, with
    the indices of [hs2] shifted by the length of [hs1]. *)
Theorem filterResponse_loop_app :
  forall (hs1 hs2 : list RespHandler) (i : nat) (resp : option RespPtr)
         (w : World),
    filterResponse_loop (hs1 ++ hs2) i resp w
    = let o1 := filterResponse_loop hs1 i resp w in
      let o2 := filterResponse_loop hs2 (i + length hs1)
                  (result o1) (final o1) in
      (result o2, final o2, (events o1 ++ events o2)%list).
Proof.
  intros hs1 hs2. induction hs1 as [|h hs1 IH]; intros i resp w.
  - cbn [app length filterResponse_loop]. rewrite run_ret, Nat.add_0_r.
    cbv zeta. unfold result, final, events. cbn [fst snd app].
    by destruct (filterResponse_loop hs2 i resp w) as [[a w'] t].
  - cbn [app length]. rewrite !filterResponse_loop_cons. cbv zeta.
    rewrite IH. cbv zeta. unfold result, final, events. cbn [fst snd].
    by rewrite Nat.add_succ_r.
Qed.

(** X17.  The request chain over [hs1 ++ hs2] is the chain over [hs1]
    when a filter of [hs1] answered with a response; otherwise it goes on
    with the chain over [hs2], which is again called on the inbound
    request. *)
Theorem filterRequest_loop_app :
  forall (hs1 hs2 : list ReqHandler) (i : nat) (r req : ReqPtr) (w : World),
    filterRequest_loop (hs1 ++ hs2) i r req None w
    = let o1 := filterRequest_loop hs1 i r req None w in
      match (result o1).2 with
      | Some _ => o1
      | None =>
          let o2 := filterRequest_loop hs2 (i + length hs1) r
                      (result o1).1 None (final o1) in
          (result o2, final o2, (events o1 ++ events o2)%list)
      end.
Proof.
  intros hs1 hs2. induction hs1 as [|h hs1 IH]; intros i r req w.
  - cbn [app length filterRequest_loop]. rewrite run_ret, Nat.add_0_r.
    cbv zeta. unfold result, final, events. cbn [fst snd app].
    by destruct (filterRequest_loop hs2 i r req None w) as [[a w'] t].
  - cbn [app length]. rewrite !filterRequest_loop_cons. cbv zeta.
    destruct (h r (store w)) as [[rq [c|]] s]; cbn [fst snd]; [done|].
    rewrite IH. cbv zeta.
    unfold result, final, events. cbn [fst snd].
    destruct (filterRequest_loop hs1 (S i) r rq None _) as [[[rq1 [c1|]] w1] t1];
      cbn [fst snd]; [done|].
    by rewrite Nat.add_succ_r.
Qed.

(** X18.  Every response filter is called in a state whose context holds,
    in [Resp], the very response the filter is called on: what a filter
    would do in any other state has no influence on the chain. *)
Theorem filterResponse_loop_sets_Resp :
  forall (other : RespHandler) (hs : list RespHandler) (i : nat)
         (resp : option RespPtr) (w : World),
    filterResponse_loop (guardResp other <$> hs) i resp w
    = filterResponse_loop hs i resp w.
Proof.
  intros other hs. induction hs as [|h hs IH]; intros i resp w; [done|].
  assert (Hg : forall w',
             guardResp other h resp
               (store (mapStore
                         (fun s => storeCtx (setResp resp (ctx s)) s) w'))
             = h resp
                 (store (mapStore
                           (fun s => storeCtx (setResp resp (ctx s)) s) w'))).
  { intros w'. unfold guardResp.
    cbn [mapStore store storeCtx ctx setResp Resp].
    by rewrite decide_True. }
  rewrite fmap_cons, !filterResponse_loop_cons. cbv zeta.
  by rewrite Hg, IH.
Qed.

(** ** Charset detection, the result *)

Lemma takeWhile_forallb (p : ascii -> bool) (s : string) :
  Strings.forallb p (Strings.takeWhile p s) = true.
Proof.
  induction s as [|a s IH]; [done|]. cbn [Strings.takeWhile].
  destruct (p a) eqn:Hp; [|done]. cbn [Strings.forallb]. by rewrite Hp.
Qed.

(** X19.  Whatever the [Content-Type] header holds, a charset that
    [Charset] returns contains neither a space nor a semicolon. *)
Theorem Charset_has_no_separator :
  forall (s : Store) (c : string),
    Charset s = Returns c -> Strings.forallb notSpaceSemi c = true.
Proof.
  intros s c. unfold Charset, charsetFinder_FindStringSubmatch.
  destruct (Resp (ctx s)) as [p|]; [|done].
  destruct (Strings.afterFirst _ _) as [rest|].
  - cbn. intros [= <-]. apply takeWhile_forallb.
  - by intros [= <-].
Qed.

Lemma Charset_has_no_separator_witness :
  Strings.forallb notSpaceSemi "ISO-8859-1" = true.
Proof.
  exact (Charset_has_no_separator
           (storeCtx (setResp (Some 1%nat) (ctx exampleStore)) exampleStore)
           "ISO-8859-1" eq_refl).
Defined.

(** ** [hasPort] *)

Lemma hasPort_suffix (pre digits : string) :
  digits <> "" ->
  Strings.forallb isDigit digits = true ->
  hasPort_MatchString (pre +:+ String ":" digits) = true.
Proof.
  intros Hne Hd. induction pre as [|a pre IH].
  - change ("" +:+ String ":" digits) with (String ":" digits).
    cbn [hasPort_MatchString]. apply String.eqb_neq in Hne.
    by rewrite Ascii.eqb_refl, Hne, Hd.
  - change (String a pre +:+ String ":" digits)
      with (String a (pre +:+ String ":" digits)).
    cbn [hasPort_MatchString]. rewrite IH. apply orb_true_r.
Qed.

(** X20.  [hasPort] matches exactly the strings that end in a colon
    followed by one or more decimal digits.  In particular it matches the
    host that [sendRequestManually] leaves in the URL of a request whose
    host held no colon. *)
Theorem hasPort_matches_port_suffix :
  forall s : string,
    (hasPort_MatchString s = true <->
     exists pre digits,
       s = pre +:+ String ":" digits /\ digits <> ""
       /\ Strings.forallb isDigit digits = true)
    /\ (forall q : Request.t,
          Host (Request.URL q) = s ->
          Strings.Contains s ":" = false ->
          hasPort_MatchString (Host (Request.URL (setHostAndPort q))) = true).
Proof.
  intros s. split; [split|].
  - induction s as [|a s IH]; [done|]. cbn [hasPort_MatchString].
    intros [H|H]%orb_true_iff.
    + apply andb_true_iff in H as [H Hd]. apply andb_true_iff in H as [Ha Hn].
      apply Ascii.eqb_eq in Ha as ->. apply negb_true_iff in Hn.
      apply String.eqb_neq in Hn. by exists "", s.
    + destruct (IH H) as (pre & digits & -> & Hn & Hd).
      by exists (String a pre), digits.
  - intros (pre & digits & -> & Hn & Hd). by apply hasPort_suffix.
  - intros q <- Hc. unfold setHostAndPort.
    cbn [Request.URL Request.setHeader]. rewrite Hc. cbn [negb].
    destruct (String.eqb _ _); cbn [Request.URL Request.setURLHost Host];
      by apply hasPort_suffix.
Qed.

Lemma hasPort_matches_port_suffix_witness :
  hasPort_MatchString (Host (Request.URL (setHostAndPort exampleRequest)))
  = true
  /\ hasPort_MatchString "example.test" = false.
Proof.
  destruct (hasPort_matches_port_suffix "example.test") as (_ & H).
  split; [exact (H exampleRequest eq_refl eq_refl) | reflexivity].
Defined.

(** ** [headersToString] *)

Lemma length_append (s t : string) :
  String.length (s +:+ t) = (String.length s + String.length t)%nat.
Proof.
  induction s as [|a s IH]; [done|].
  change (String a s +:+ t) with (String a (s +:+ t)).
  cbn [String.length]. by rewrite IH.
Qed.

Lemma sum_list_perm (l1 l2 : list nat) :
  l1 ≡ₚ l2 -> sum_list l1 = sum_list l2.
Proof.
  induction 1 as [|x l l' _ IH|x y l|l l' l'' _ IH1 _ IH2]; cbn; lia.
Qed.

Lemma length_concat_lines (ls : list string) :
  String.length (foldr String.append "" ls)
  = sum_list (String.length <$> ls).
Proof.
  induction ls as [|l ls IH]; [done|]. cbn [foldr fmap list_fmap sum_list].
  by rewrite length_append, IH.
Qed.

Lemma headerLogLines_nonempty (hs : list (string * list string)) :
  Forall (fun l => (3 <= String.length l)%nat) (headerLogLines hs).
Proof.
  unfold headerLogLines. apply list.Forall_forall. intros l Hl.
  apply list_elem_of_bind in Hl as ([name values] & Hl & _).
  apply list_elem_of_fmap in Hl as (value & -> & _).
  rewrite !length_append. cbn. lia.
Qed.

(** X21.  The string that [headersToString] builds has the same length
    in whatever order the header map is ranged over, and it is empty
    exactly when no key of the map has a value. *)
Theorem headersToString_length_and_empty :
  forall (E E' : Env) (headers : http_Header),
    rangeOk E -> rangeOk E' ->
    String.length (headersToString E headers)
    = String.length (headersToString E' headers)
    /\ (headersToString E headers = "" <->
        forall k vs, headers !! k = Some vs -> vs = []).
Proof.
  intros E E' headers Hok Hok'. unfold headersToString. split.
  - rewrite !length_concat_lines. apply sum_list_perm.
    unfold headerLogLines. by rewrite (Hok headers), (Hok' headers).
  - split.
    + intros Hs k vs Hk.
      assert (Hl : headerLogLines (rangeHeader E headers) = []).
      { pose proof (headerLogLines_nonempty (rangeHeader E headers)) as Hne.
        apply (f_equal String.length) in Hs.
        rewrite length_concat_lines in Hs.
        destruct (headerLogLines (rangeHeader E headers)) as [|l ls];
          [done|].
        apply list.Forall_cons in Hne as [Hl _].
        cbn [fmap list_fmap sum_list] in Hs. cbn in Hs. lia. }
      destruct vs as [|v vs]; [done|]. exfalso.
      assert (Hin : (k +:+ ": " +:+ v +:+ LF)
                      ∈ headerLogLines (rangeHeader E headers)).
      { unfold headerLogLines. apply list_elem_of_bind.
        exists (k, v :: vs). split.
        - apply list_elem_of_fmap. exists v. split; [done | by left].
        - rewrite (Hok headers). by apply elem_of_map_to_list. }
      rewrite Hl in Hin. by apply elem_of_nil in Hin.
    + intros Hall.
      assert (Hl : headerLogLines (rangeHeader E headers) = []).
      { unfold headerLogLines.
        assert (Hf : Forall (fun kv : string * list string => kv.2 = [])
                            (rangeHeader E headers)).
        { apply list.Forall_forall. intros [k vs] Hin.
          rewrite (Hok headers) in Hin.
          apply elem_of_map_to_list in Hin. by apply (Hall k vs). }
        induction Hf as [|[k vs] l Hk _ IH]; [done|].
        cbn [fst snd] in Hk. subst vs. exact IH. }
      by rewrite Hl.
Qed.

Lemma headersToString_length_and_empty_witness :
  String.length (headersToString envUp (Request.Header exampleRequest))
  = String.length (headersToString envUpRev (Request.Header exampleRequest)).
Proof.
  apply (headersToString_length_and_empty
           envUp envUpRev (Request.Header exampleRequest)).
  - intros h. reflexivity.
  - intros h. apply reverse_Permutation.
Defined.

(** ** Logging *)

(** X22.  Every log line carries as its tag the session number modulo
    256, a number from 0 to 255 also for a negative session number, so
    that two requests whose session numbers differ by a multiple of 256
    are logged with the same tag.  [Warnf] always prints one line; [Logf]
    prints its line only when [Verbose] is set. *)
Theorem log_lines_carry_low_byte :
  forall (proxy : ProxyHttpServer) (c : ProxyCtx) (msg : string)
         (argv : list LogArg),
    Warnf c msg argv
    = [("[%03d] WARN: " +:+ msg +:+ LF, ArgInt (Session c mod 256) :: argv)]
    /\ Logf proxy c msg argv
       = (if Verbose proxy
          then [("[%03d] INFO: " +:+ msg +:+ LF,
                 ArgInt (Session c mod 256) :: argv)]
          else [])
    /\ 0 <= Session c mod 256 < 256.
Proof.
  intros proxy c msg argv.
  assert (Ht : Z.land (Session c) 255 = Session c mod 256).
  { change 255 with (Z.ones 8). rewrite Z.land_ones by lia. reflexivity. }
  unfold Warnf, Logf, printf. rewrite Ht.
  split; [done|]. split; [by destruct (Verbose proxy)|].
  apply Z.mod_pos_bound. lia.
Qed.

(** ** A server without filters *)

Lemma RoundTrip_final E r w :
  final (RoundTrip E r w)
  = mapStore ((sendOutcome E (setHostAndPort (requests (store w) r))).1.2
              ∘ storeReq r (setHostAndPort (requests (store w) r))) w.
Proof.
  rewrite RoundTrip_run. cbv zeta. unfold final at 1. cbn [fst snd].
  by rewrite sendRequestManually_run.
Qed.

Lemma ServeHTTP_send_failure E proxy r w :
  respHandlers proxy = [] ->
  let out := ServeHTTP_send E proxy r w in
  transportFailed (events out) = true ->
  exists e,
    result out = None
    /\ Error (ctx (store (final out))) = Some e
    /\ ((exists tls addr, EvDial tls addr (Some e) ∈ events out)
        \/ EvReadResponse (inr e) ∈ events out).
Proof.
  intros Hrh out. subst out. unfold ServeHTTP_send.
  rewrite events_bind, result_bind, final_bind.
  cbn [getReq events result final fst snd app].
  rewrite events_bind, result_bind, final_bind.
  set (m1 := if isWebSocketRequest E _ then _ else _).
  rewrite events_bind, result_bind, final_bind.
  set (m2 := if negb (KeepHeader proxy) then _ else _).
  rewrite events_bind, result_bind, final_bind.
  rewrite RoundTrip_events, RoundTrip_result, RoundTrip_final.
  set (w3 := final (m2 _)).
  set (q := setHostAndPort (requests (store w3) r)).
  assert (Hm1 : transportFailed (events (m1 w)) = false).
  { apply transportFailed_none. subst m1.
    destruct (isWebSocketRequest E _); [|by apply Forall_nil_2].
    rewrite events_bind. by repeat constructor. }
  assert (Hm2 : transportFailed (events (m2 (final (m1 w)))) = false).
  { apply transportFailed_none. subst m2.
    destruct (negb _); [|by apply Forall_nil_2].
    destruct (removeProxyHeaders_run r (final (m1 w))) as (-> & _).
    by repeat constructor. }
  rewrite !transportFailed_app, Hm1, Hm2.
  unfold filterResponse. rewrite Hrh. cbn [filterResponse_loop].
  unfold sendOutcome.
  destruct (Dial E _ _) as [e|] eqn:Hd; cbn [fst snd].
  { intros _. exists e. rewrite !result_bind, !final_bind.
    split; [done|]. split; [done|]. left.
    eexists _, _. apply elem_of_app. right. apply elem_of_app. right.
    apply elem_of_app. left. right. by left. }
  destruct (ReadResponse E _ _) as [[p0 R0]|e] eqn:Hr; cbn [fst snd].
  - rewrite run_ret. cbn [events snd app orb].
    change (EvRoundTrip r :: ?l)%list with ([EvRoundTrip r] ++ l)%list.
    rewrite !transportFailed_app.
    change (EvDial ?a ?b None :: ?l)%list
      with ([EvDial a b None] ++ l)%list.
    rewrite !transportFailed_app.
    rewrite (transportFailed_none (EvConnWrite <$> _))
      by (by apply Forall_fmap, Forall_true).
    cbn. discriminate.
  - intros _. exists e. rewrite !result_bind, !final_bind.
    split; [done|]. split; [done|]. right.
    apply elem_of_app. right. apply elem_of_app. right.
    apply elem_of_app. left. right. right.
    apply elem_of_app. right. by left.
Qed.

Lemma filter_isReply_none (l : list Event) :
  Forall (fun e => isReply e = false) l ->
  filter (fun e => isReply e = true) l = [].
Proof.
  induction 1 as [|e l He _ IH]; [done|].
  rewrite filter_cons_False; [done|]. by rewrite He.
Qed.

Lemma ServeHTTP_send_no_reply E proxy r w :
  respHandlers proxy = [] ->
  filter (fun e => isReply e = true) (events (ServeHTTP_send E proxy r w))
  = [].
Proof.
  intros Hrh. apply filter_isReply_none.
  destruct (ServeHTTP_send_events E proxy r w) as (pre & q & w' & Hpre & ->).
  apply Forall_app. split.
  { eapply list.Forall_impl; [exact Hpre|]. by intros []. }
  constructor; [done|]. apply Forall_app. split.
  { eapply list.Forall_impl; [apply sendOutcome_kind|]. by intros []. }
  destruct (sendOutcome E q).1.1.2; [|by apply Forall_nil_2].
  unfold filterResponse. rewrite Hrh. by apply Forall_nil_2.
Qed.

Lemma ServeHTTP_reply_plain E proxy r resp w :
  respHandlers proxy = [] ->
  exists flag,
    filter (fun e => isReply e = true)
           (events (ServeHTTP_reply E proxy r resp w))
    = match resp with
      | None =>
          [EvHttpError
             (default ("error read response "
                       +:+ Host (Request.URL (requests (store w) r)))
                      (Error (ctx (store w)))) 500]
      | Some p =>
          [EvWriteHeader (Response.StatusCode (responses (store w) p));
           EvCopy flag (Response.Body (responses (store w) p));
           EvBodyClose (Response.Body (responses (store w) p));
           EvBodyClose (Response.Body (responses (store w) p))]
      end
    /\ (forall p, resp = Some p ->
          responses (store (final (ServeHTTP_reply E proxy r resp w))) p
          = responses (store w) p).
Proof.
  intros Hrh.
  assert (Hfr : filterResponse proxy resp w = (resp, w, @nil Event)).
  { unfold filterResponse. by rewrite Hrh. }
  pose proof (ServeHTTP_reply_run E proxy r resp w) as Hrun.
  cbv zeta in Hrun.
  set (flag := String.eqb _ _) in Hrun. clearbody flag. exists flag.
  rewrite Hfr in Hrun. unfold result, final in Hrun.
  unfold events at 2 in Hrun. cbn [fst snd app] in Hrun.
  rewrite Hrun. split.
  - destruct resp as [p|]; cbn [fmap option_fmap option_map app];
      [reflexivity|].
    by destruct (Error (ctx (store w))).
  - intros p ->.
    rewrite (ServeHTTP_reply_Header E proxy r (Some p) w p)
      by (by rewrite Hfr).
    rewrite Hfr. unfold final. cbn [fst snd fmap option_fmap option_map].
    by rewrite decide_True.
Qed.

(** X23.  A server as [NewProxyHttpServer] makes it, without filters,
    relays: for a request with an absolute URL and a method other than
    CONNECT, when the transport did not fail the client gets the status
    code and the body of the response that was read from the origin,
    that response keeps its headers, and its body is closed twice; when
    the transport failed the client gets status 500 with the text of the
    transport error. *)
Theorem NewProxyHttpServer_relays :
  forall (E : Env) (r : ReqPtr) (w0 : World),
    String.eqb (Request.Method (requests (store w0) r)) "CONNECT" = false ->
    URL_IsAbs (Request.URL (requests (store w0) r)) = true ->
    let out := ServeHTTP E NewProxyHttpServer r w0 in
    (transportFailed (events out) = false ->
     exists addr ws p R flag,
       ReadResponse E addr ws = inl (p, R)
       /\ filter (fun e => isReply e = true) (events out)
          = [EvWriteHeader (Response.StatusCode R);
             EvCopy flag (Response.Body R);
             EvBodyClose (Response.Body R);
             EvBodyClose (Response.Body R)]
       /\ responses (store (final out)) p = R)
    /\ (transportFailed (events out) = true ->
        exists e,
          filter (fun e => isReply e = true) (events out)
          = [EvHttpError e 500]
          /\ ((exists tls addr, EvDial tls addr (Some e) ∈ events out)
              \/ EvReadResponse (inr e) ∈ events out)).
Proof.
  intros E r w0 Hm Ha out. subst out.
  rewrite (ServeHTTP_abs E NewProxyHttpServer r w0 Hm Ha).
  set (w := final (newCtx r w0)).
  set (P := NewProxyHttpServer).
  assert (Hrh : respHandlers P = []) by done.
  set (sd := ServeHTTP_send E P r w).
  set (rp := ServeHTTP_reply E P r (result sd) (final sd)).
  assert (Hout : ServeHTTP_proxied E P r w
                 = (result rp, final rp, (events sd ++ events rp)%list)).
  { unfold ServeHTTP_proxied. rewrite run_bind.
    change (filterRequest P r w) with ((r, None : option RespPtr), w,
                                       @nil Event).
    cbv iota beta. rewrite run_bind. subst rp. fold sd.
    destruct sd as [[a w1] t1]. unfold result, final, events. cbn [fst snd].
    by destruct (ServeHTTP_reply E P r a w1) as [[b w2] t2]. }
  assert (Hev : events (ServeHTTP_proxied E P r w)
                = (events sd ++ events rp)%list) by (by rewrite Hout).
  assert (Hfin : final (ServeHTTP_proxied E P r w) = final rp)
    by (by rewrite Hout).
  rewrite Hev, Hfin. clear Hout Hev Hfin.
  assert (Hrt : transportFailed (events rp) = false).
  { by destruct (ServeHTTP_reply_resp E P r (result sd) (final sd)). }
  rewrite !transportFailed_app, Hrt, orb_false_r.
  rewrite !list.filter_app.
  pose proof (ServeHTTP_send_no_reply E P r w Hrh) as Hnr.
  fold sd in Hnr. rewrite Hnr. cbn [app].
  destruct (ServeHTTP_reply_plain E P r (result sd) (final sd) Hrh)
    as (flag & Hrp & Hkeep).
  fold rp in Hrp, Hkeep. rewrite Hrp.
  split.
  - intros Hf.
    destruct (ServeHTTP_send_success E P r w Hf)
      as (addr & ws & p & R & Hr & Hres & Hp).
    fold sd in Hres, Hp. rewrite Hres.
    exists addr, ws, p, R, flag. split; [exact Hr|].
    rewrite Hp. split; [reflexivity|].
    by rewrite (Hkeep p Hres).
  - intros Hf.
    destruct (ServeHTTP_send_failure E P r w Hrh Hf)
      as (e & Hres & He & Hev).
    fold sd in Hres, He, Hev. rewrite Hres, He.
    exists e. split; [reflexivity|].
    destruct Hev as [(tls & addr & Hev)|Hev].
    + left. exists tls, addr. apply elem_of_app. by left.
    + right. apply elem_of_app. by left.
Qed.

Lemma NewProxyHttpServer_relays_witness :
  exists e,
    filter (fun e => isReply e = true)
           (events (ServeHTTP envDown NewProxyHttpServer 0%nat exampleWorld))
    = [EvHttpError e 500].
Proof.
  destruct (NewProxyHttpServer_relays envDown 0%nat exampleWorld
              eq_refl eq_refl) as (_ & H).
  assert (Hf : transportFailed
                 (events (ServeHTTP envDown NewProxyHttpServer 0%nat
                            exampleWorld)) = true)
    by (vm_compute; reflexivity).
  destruct (H Hf) as (e & He & _).
  exists e. exact He.
Defined.

(** ** The transport error and the response filters *)

(** X24.  When the transport fails, its error is stored in the [Error]
    field of the context before any response filter runs: what
    [ServeHTTP] gets back from that step is the result of the response
    chain, started on the absent response in a state whose context holds
    the error that the dial or the parse returned. *)
Theorem transport_error_reaches_filters :
  forall (E : Env) (proxy : ProxyHttpServer) (r : ReqPtr) (w : World),
    let out := ServeHTTP_send E proxy r w in
    transportFailed (events out) = true ->
    exists e w',
      Error (ctx (store w')) = Some e
      /\ result out = result (filterResponse proxy None w')
      /\ final out = final (filterResponse proxy None w')
      /\ ((exists tls addr, EvDial tls addr (Some e) ∈ events out)
          \/ EvReadResponse (inr e) ∈ events out).
Proof.
  intros E proxy r w out. subst out. unfold ServeHTTP_send.
  rewrite events_bind, result_bind, final_bind.
  cbn [getReq events result final fst snd app].
  rewrite events_bind, result_bind, final_bind.
  set (m1 := if isWebSocketRequest E _ then _ else _).
  rewrite events_bind, result_bind, final_bind.
  set (m2 := if negb (KeepHeader proxy) then _ else _).
  rewrite events_bind, result_bind, final_bind.
  rewrite RoundTrip_events, RoundTrip_result, RoundTrip_final.
  set (w3 := final (m2 _)).
  set (q := setHostAndPort (requests (store w3) r)).
  assert (Hm1 : transportFailed (events (m1 w)) = false).
  { apply transportFailed_none. subst m1.
    destruct (isWebSocketRequest E _); [|by apply Forall_nil_2].
    rewrite events_bind. by repeat constructor. }
  assert (Hm2 : transportFailed (events (m2 (final (m1 w)))) = false).
  { apply transportFailed_none. subst m2.
    destruct (negb _); [|by apply Forall_nil_2].
    destruct (removeProxyHeaders_run r (final (m1 w))) as (-> & _).
    by repeat constructor. }
  rewrite !transportFailed_app, Hm1, Hm2.
  unfold sendOutcome.
  destruct (Dial E _ _) as [e|] eqn:Hd; cbn [fst snd].
  { intros _. rewrite !result_bind, !final_bind.
    eexists e, _. split; [|split; [reflexivity|split; [reflexivity|]]].
    - reflexivity.
    - left. eexists _, _. apply elem_of_app. right. apply elem_of_app. right.
      apply elem_of_app. left. right. by left. }
  destruct (ReadResponse E _ _) as [[p0 R0]|e] eqn:Hr; cbn [fst snd].
  - rewrite run_ret. cbn [events snd app orb].
    change (EvRoundTrip r :: ?l)%list with ([EvRoundTrip r] ++ l)%list.
    rewrite !transportFailed_app.
    change (EvDial ?a ?b None :: ?l)%list
      with ([EvDial a b None] ++ l)%list.
    rewrite !transportFailed_app.
    rewrite (transportFailed_none (EvConnWrite <$> _))
      by (by apply Forall_fmap, Forall_true).
    cbn. discriminate.
  - intros _. rewrite !result_bind, !final_bind.
    eexists e, _. split; [|split; [reflexivity|split; [reflexivity|]]].
    + reflexivity.
    + right. apply elem_of_app. right. apply elem_of_app. right.
      apply elem_of_app. left. right. right.
      apply elem_of_app. right. by left.
Qed.

Lemma transport_error_reaches_filters_witness :
  exists e w',
    Error (ctx (store w')) = Some e
    /\ result (ServeHTTP_send envDown proxyOneResp 0%nat exampleWorld)
       = result (filterResponse proxyOneResp None w').
Proof.
  assert (Hf : transportFailed
                 (events (ServeHTTP_send envDown proxyOneResp 0%nat
                            exampleWorld)) = true)
    by (vm_compute; reflexivity).
  destruct (transport_error_reaches_filters
              envDown proxyOneResp 0%nat exampleWorld Hf)
    as (e & w' & He & Hres & _).
  exists e, w'. split; [exact He | exact Hres].
Defined.

(** ** The response filters after a failed transport *)

(** C1.  After a failed transport the response filter chain does not run
    exactly once.  With the two response filters [synthResponse] and
    [passResponse] and an origin that refuses the connection, [ServeHTTP]
    runs the chain at line 152 on the absent response, and runs it again
    at line 167 on what the first run returned, here the response 2:
    four calls for two filters.  The first filter is called on the absent
    response only in the first run; in the second it is called on the
    result of the first run.  With the single filter [passResponse], which
    returns the absent response, the chain is run twice as well, both
    times on the absent response.  When the origin answers, the same
    filters are each called once. *)
Theorem response_filters_run_twice_after_failed_transport :
  let out := ServeHTTP envDown proxySynthPass 0%nat exampleWorld in
  String.eqb (Request.Method (requests (store exampleWorld) 0%nat)) "CONNECT"
  = false
  /\ URL_IsAbs (Request.URL (requests (store exampleWorld) 0%nat)) = true
  /\ transportFailed (events out) = true
  /\ respIdx (events out) = [0; 1; 0; 1]%nat
  /\ respInputs (events out)
     = [None; Some 2%nat; Some 2%nat; Some 2%nat]
  /\ respIdx (events out) <> seq 0 (length (respHandlers proxySynthPass))
  /\ respInputs (events (ServeHTTP envDown proxyOneResp 0%nat exampleWorld))
     = [None; None]
  /\ respIdx (events (ServeHTTP envUp proxySynthPass 0%nat exampleWorld))
     = seq 0 (length (respHandlers proxySynthPass)).
Proof.
  cbv zeta. repeat split; try (vm_compute; reflexivity).
  vm_compute. discriminate.
Qed.

(** ** The [Content-Length] header that reaches the client *)

Lemma keeps_wHeader_bind {A B} (m : M A) (f : A -> M B) (w : World) :
  wHeader (final (m w)) = wHeader w ->
  (forall a w', wHeader (final (f a w')) = wHeader w') ->
  wHeader (final ((m ≫= f) w)) = wHeader w.
Proof. intros Hm Hf. rewrite final_bind. by rewrite Hf. Qed.

Ltac wh_step :=
  match goal with
  | |- wHeader (final ((_ ≫= _) _)) = _ =>
      apply keeps_wHeader_bind; [|intros ? ?]
  | |- wHeader (final (liftStore _ _)) = _ => by rewrite final_liftStore
  | |- wHeader (final ((if ?b then _ else _) _)) = _ => destruct b
  | |- wHeader (final ((match ?x with _ => _ end) _)) = _ => destruct x
  | |- wHeader (final _) = _ => reflexivity
  end.

Lemma filterRequest_loop_wHeader hs i r req resp w :
  wHeader (final (filterRequest_loop hs i r req resp w)) = wHeader w.
Proof.
  revert i req resp w.
  induction hs as [|h hs IH]; intros i req resp w; cbn [filterRequest_loop];
    [done|].
  repeat wh_step; auto.
Qed.

Lemma RoundTrip_wHeader E r w :
  wHeader (final (RoundTrip E r w)) = wHeader w.
Proof. by rewrite RoundTrip_final. Qed.

Lemma removeProxyHeaders_wHeader r w :
  wHeader (final (removeProxyHeaders r w)) = wHeader w.
Proof. unfold removeProxyHeaders. repeat wh_step. Qed.

Lemma ServeHTTP_send_wHeader E proxy r w :
  wHeader (final (ServeHTTP_send E proxy r w)) = wHeader w.
Proof.
  unfold ServeHTTP_send.
  wh_step; [done|]. wh_step; [repeat wh_step|].
  wh_step.
  { destruct (negb (KeepHeader proxy));
      [apply removeProxyHeaders_wHeader|done]. }
  wh_step; [apply RoundTrip_wHeader|].
  destruct a2 as [resp [e|]]; [|done].
  wh_step; [done|]. apply filterResponse_loop_wHeader.
Qed.

Lemma newCtx_wHeader r w : wHeader (final (newCtx r w)) = wHeader w.
Proof. done. Qed.

Lemma ServeHTTP_send_quiet E proxy r w :
  Forall (fun e => isReply e = false) (events (ServeHTTP_send E proxy r w)).
Proof.
  destruct (ServeHTTP_send_events E proxy r w) as (pre & q & w' & Hpre & ->).
  apply Forall_app. split.
  { eapply list.Forall_impl; [exact Hpre|]. by intros []. }
  constructor; [done|]. apply Forall_app. split.
  { eapply list.Forall_impl; [apply sendOutcome_kind|]. by intros []. }
  destruct (sendOutcome E q).1.1.2; [|by apply Forall_nil_2].
  eapply list.Forall_impl; [apply filterResponse_kind|]. by intros [].
Qed.

Lemma ServeHTTP_reply_streams E proxy r pin w p :
  let origBody := Response.Body (responses (store w) pin) in
  let fr := filterResponse proxy (Some pin) w in
  result fr = Some p ->
  let rs := responses (store (final fr)) p in
  let sent :=
    if decide (Response.Body rs = origBody) then Response.Header rs
    else delete "Content-Length" (Response.Header rs) in
  let out := ServeHTTP_reply E proxy r (Some pin) w in
  Response.Header (responses (store (final out)) p) = sent
  /\ wHeader (final out)
     = copyHeaders E (wHeader w) sent (KeepDestinationHeaders proxy)
  /\ exists flag,
       events out
       = (events fr
          ++ [EvWriteHeader (Response.StatusCode rs);
              EvCopy flag (Response.Body rs);
              EvBodyClose (Response.Body rs);
              EvBodyClose origBody])%list.
Proof.
  intros origBody fr Hres rs sent out.
  assert (Hh : Response.Header (responses (store (final out)) p) = sent).
  { subst out. rewrite (ServeHTTP_reply_Header E proxy r (Some pin) w p Hres).
    fold fr. fold rs. cbn [fmap option_fmap option_map]. fold origBody.
    subst sent.
    destruct (decide (Some origBody = Some (Response.Body rs))) as [Heq|Hne].
    - injection Heq as Heq. by rewrite decide_True.
    - rewrite decide_False by congruence. done. }
  split; [exact Hh|]. split.
  - rewrite <- Hh. subst out.
    apply (ServeHTTP_reply_wHeader E proxy r (Some pin) w p Hres).
  - pose proof (ServeHTTP_reply_run E proxy r (Some pin) w) as Hrun.
    cbv zeta in Hrun. fold fr in Hrun. rewrite Hres in Hrun.
    fold out in Hrun. fold rs in Hrun.
    eexists. rewrite Hrun. reflexivity.
Qed.

Lemma sent_ContentLength (h : http_Header) (same : bool) :
  (if same then h else delete "Content-Length" h) !! "Content-Length"
  = if same then h !! "Content-Length" else None.
Proof. destruct same; [done|]. apply lookup_delete_eq. Qed.

(** C9, amended.  Take a request with an absolute URL and a method other
    than CONNECT, and let the transport not have failed.  The response
    [p_in] on which the response filters start is then the canned response
    of a request filter, or the response that [http.ReadResponse] parsed
    from the origin, stored as it was read; [origBody] is its body at that
    moment.  Until the filters have run nothing went to the client
    ([pre]).  When they return the response [p], whose headers are then
    [Response.Header rs]:
    - the header map of [p] becomes [sent]: [Response.Header rs] without
      [Content-Length] when the body of [p] is not [origBody], and
      [Response.Header rs] itself when it is;
    - the header map of the client-facing writer, which only [copyHeaders]
      at line 192 writes, is the copy of [sent], made from the header map
      the writer had when [ServeHTTP] was called;
    - after [pre] the events are [WriteHeader], the copy of the body of
      [p], and the two [Close] calls;
    - so, with [KeepDestinationHeaders] off and canonical keys, the writer
      has no [Content-Length] when the body was replaced, and the values
      the filters left when it was not. *)
Theorem ContentLength_deleted_before_streaming :
  forall (E : Env) (proxy : ProxyHttpServer) (r : ReqPtr) (w0 : World),
    String.eqb (Request.Method (requests (store w0) r)) "CONNECT" = false ->
    URL_IsAbs (Request.URL (requests (store w0) r)) = true ->
    let out := ServeHTTP E proxy r w0 in
    transportFailed (events out) = false ->
    let fq := filterRequest proxy r (final (newCtx r w0)) in
    exists (p_in : RespPtr) (w1 : World) (pre : list Event),
      match (result fq).2 with
      | Some cr => p_in = cr /\ w1 = final fq
      | None =>
          let sd := ServeHTTP_send E proxy (result fq).1 (final fq) in
          result sd = Some p_in /\ w1 = final sd
          /\ exists addr ws R0,
               ReadResponse E addr ws = inl (p_in, R0)
               /\ responses (store w1) p_in = R0
      end
      /\ Forall (fun e => isReply e = false) pre
      /\ let origBody := Response.Body (responses (store w1) p_in) in
         let fr := filterResponse proxy (Some p_in) w1 in
         forall p : RespPtr,
           result fr = Some p ->
           let rs := responses (store (final fr)) p in
           let same := bool_decide (Response.Body rs = origBody) in
           let sent :=
             if same then Response.Header rs
             else delete "Content-Length" (Response.Header rs) in
           Response.Header (responses (store (final out)) p) = sent
           /\ sent !! "Content-Length"
              = (if same then Response.Header rs !! "Content-Length"
                 else None)
           /\ wHeader (final out)
              = copyHeaders E (wHeader w0) sent
                  (KeepDestinationHeaders proxy)
           /\ (exists flag,
                 events out
                 = (pre ++ [EvWriteHeader (Response.StatusCode rs);
                            EvCopy flag (Response.Body rs);
                            EvBodyClose (Response.Body rs);
                            EvBodyClose origBody])%list)
           /\ (rangeOk E ->
               KeepDestinationHeaders proxy = false ->
               canonicalKeys (wHeader w0) ->
               canonicalKeys (Response.Header rs) ->
               wHeader (final out) !! "Content-Length"
               = if same
                 then match Response.Header rs !! "Content-Length" with
                      | Some (v :: vs) => Some (v :: vs)
                      | _ => None
                      end
                 else None).
Proof.
  intros E proxy r w0 Hm Ha out Hok fq. subst out.
  rewrite (ServeHTTP_abs E proxy r w0 Hm Ha) in Hok |- *.
  set (w := final (newCtx r w0)) in *.
  assert (Hw : wHeader w = wHeader w0) by done.
  assert (Hfq : wHeader (final fq) = wHeader w)
    by apply filterRequest_loop_wHeader.
  assert (Hqk : Forall (fun e => isReply e = false) (events fq)).
  { eapply list.Forall_impl; [apply filterRequest_kind|]. by intros []. }
  (* the response that enters the last part, and the state it enters in *)
  assert (Hin : exists (p_in : RespPtr) (w1 : World) (pre : list Event),
            match (result fq).2 with
            | Some cr => p_in = cr /\ w1 = final fq
            | None =>
                let sd := ServeHTTP_send E proxy (result fq).1 (final fq) in
                result sd = Some p_in /\ w1 = final sd
                /\ exists addr ws R0,
                     ReadResponse E addr ws = inl (p_in, R0)
                     /\ responses (store w1) p_in = R0
            end
            /\ Forall (fun e => isReply e = false) pre
            /\ wHeader w1 = wHeader w0
            /\ final (ServeHTTP_proxied E proxy r w)
               = final (ServeHTTP_reply E proxy (result fq).1 (Some p_in) w1)
            /\ events (ServeHTTP_proxied E proxy r w)
               = (pre ++ events (filterResponse proxy (Some p_in) w1)
                  ++ drop (length (events (filterResponse proxy (Some p_in) w1)))
                       (events (ServeHTTP_reply E proxy (result fq).1
                                  (Some p_in) w1)))%list).
  { revert Hok. unfold ServeHTTP_proxied.
    rewrite events_bind, final_bind. fold fq.
    destruct (result fq) as [rq [cr|]] eqn:Hrq; cbn [fst snd].
    - intros _. exists cr, (final fq), (events fq).
      rewrite events_bind, final_bind, !run_ret.
      change (final (Some cr, final fq, @nil Event)) with (final fq).
      change (events (Some cr, final fq, @nil Event)) with (@nil Event).
      change (result (Some cr, final fq, @nil Event)) with (Some cr).
      cbn [app].
      split; [split; reflexivity|]. split; [exact Hqk|].
      split; [congruence|]. split; [reflexivity|]. f_equal.
      destruct (ServeHTTP_reply_events E proxy rq (Some cr) (final fq))
        as (rest & -> & _).
      by rewrite drop_app_length.
    - rewrite events_bind, final_bind.
      set (sd := ServeHTTP_send E proxy rq (final fq)).
      rewrite !transportFailed_app, !orb_false_iff.
      intros (_ & Hsd & _).
      destruct (ServeHTTP_send_success E proxy rq (final fq) Hsd)
        as (addr & ws & p0 & R0 & Hrr & Hres & Hst).
      fold sd in Hres, Hst.
      exists p0, (final sd), (events fq ++ events sd)%list.
      split; [split; [done|]; split; [done|]; by exists addr, ws, R0|].
      split.
      { apply Forall_app. split; [exact Hqk|]. apply ServeHTTP_send_quiet. }
      split.
      { subst sd. rewrite ServeHTTP_send_wHeader. congruence. }
      rewrite Hres. split; [done|]. rewrite <- app_assoc. do 2 f_equal.
      destruct (ServeHTTP_reply_events E proxy rq (Some p0) (final sd))
        as (rest & -> & _).
      by rewrite drop_app_length. }
  destruct Hin as (p_in & w1 & pre & Hcase & Hpre & Hw1 & Hfin & Hev).
  exists p_in, w1,
    (pre ++ events (filterResponse proxy (Some p_in) w1))%list.
  split; [exact Hcase|]. split.
  { apply Forall_app. split; [exact Hpre|].
    eapply list.Forall_impl; [apply filterResponse_kind|]. by intros []. }
  intros origBody fr p Hres rs same sent.
  destruct (ServeHTTP_reply_streams E proxy (result fq).1 p_in w1 p Hres)
    as (Hh & Hwh & flag & Hevr).
  fold fr in Hh, Hwh, Hevr. fold rs in Hh, Hwh, Hevr. fold origBody in Hh, Hwh, Hevr.
  assert (Hsent : (if decide (Response.Body rs = origBody)
                   then Response.Header rs
                   else delete "Content-Length" (Response.Header rs))
                  = sent).
  { subst sent same. by destruct decide;
      [rewrite bool_decide_eq_true_2|rewrite bool_decide_eq_false_2]. }
  rewrite Hsent in Hh, Hwh.
  rewrite Hfin, Hev, Hh, Hwh, Hw1.
  split; [done|]. split; [apply sent_ContentLength|]. split; [done|]. split.
  - exists flag. fold fr. rewrite Hevr, drop_app_length.
    by rewrite <- app_assoc.
  - intros HE Hk Hc0 Hcr. rewrite Hk.
    rewrite copyHeaders_false_lookup; [|done..|].
    + unfold sent. rewrite sent_ContentLength. by destruct same.
    + subst sent. destruct same; [done|]. intros k vs Hl.
      apply lookup_delete_Some in Hl as [_ Hl]. by apply (Hcr k vs).
Qed.
